(** * bot.js: a shallow embedding of the wallet-provisioning Telegram bot

    The development follows [src/bot.js]: the helpers of the "QUACK AI
    FUNCTIONS" block ([createWallet], [registerWallet], [getRandomTopic],
    [performChat], [completeDailyChats]), the job function
    [processUserRequest] and the two Telegram handlers
    ([bot.on('message')], [bot.on('callback_query')]).  The command-line
    batch runner that follows the bot in the same file repeats the helpers
    over a fixed topic list and has no quota, session or cancellation; it
    is not modelled.

    Conventions.
    - JavaScript numbers that the program uses as integers (chat ids,
      counters, HTTP status codes) are [Z]; loop indices are [nat].
    - Texts are [string]; [String.length] stands for [.length].
    - Everything the program obtains from outside (HTTP answers, the
      Telegram API, the clock, [Math.random], [ethers]) is read from an
      oracle [Env], indexed by a counter of the external interactions made
      so far, so that a statement quantified over [Env] covers every
      behaviour of the environment.
    - [try]/[catch] and [throw] are an exception-and-state monad [Prog]. *)

From Stdlib Require Import ZArith Lia Ascii.
From stdpp Require Import base option list gmap strings pretty.

Open Scope string_scope.
Open Scope list_scope.
Open Scope Z_scope.

(** ** JavaScript values, as far as the program inspects them *)

#[local] Set Warnings "-register-all".
Inductive JsVal : Type :=
| JsUndefined
| JsNull
| JsBool (b : bool)
| JsNum (n : Z)
| JsStr (s : string)
| JsObj (fields : list (string * JsVal)).

(** [!!v] *)
Definition truthy (v : JsVal) : bool :=
  match v with
  | JsUndefined | JsNull => false
  | JsBool b => b
  | JsNum n => negb (n =? 0)
  | JsStr s => negb (String.eqb s EmptyString)
  | JsObj _ => true
  end.

(** [v === n] for a number literal [n] *)
Definition strict_eq_num (v : JsVal) (n : Z) : bool :=
  match v with
  | JsNum m => m =? n
  | _ => false
  end.

Fixpoint field (key : string) (fields : list (string * JsVal)) : JsVal :=
  match fields with
  | [] => JsUndefined
  | (k, v) :: rest => if String.eqb k key then v else field key rest
  end.

(** ** Outcomes and the program monad *)

Inductive Outcome (A : Type) : Type :=
| Ret (a : A)
| Throw (e : string).
Arguments Ret {A} a.
Arguments Throw {A} e.

Definition is_throw {A} (o : Outcome A) : Prop :=
  match o with Throw _ => True | Ret _ => False end.

(** [v.key]: a TypeError on [undefined] and [null], [undefined] on a
    primitive or on a missing property. *)
Definition prop_of (v : JsVal) (key : string) : Outcome JsVal :=
  match v with
  | JsUndefined | JsNull => Throw "TypeError"
  | JsObj fields => Ret (field key fields)
  | JsBool _ | JsNum _ | JsStr _ => Ret JsUndefined
  end.

Section ProgMonad.
Context {St : Type}.

Definition Prog (A : Type) : Type := St -> Outcome A * St.

Definition ret {A} (a : A) : Prog A := fun s => (Ret a, s).
Definition throw {A} (e : string) : Prog A := fun s => (Throw e, s).

Definition bind {A B} (m : Prog A) (k : A -> Prog B) : Prog B :=
  fun s =>
    match m s with
    | (Ret a, s') => k a s'
    | (Throw e, s') => (Throw e, s')
    end.

(** [try { m } catch (e) { h e }]: the state changes made before the
    exception stay. *)
Definition try_catch {A} (m : Prog A) (h : string -> Prog A) : Prog A :=
  fun s =>
    match m s with
    | (Ret a, s') => (Ret a, s')
    | (Throw e, s') => h e s'
    end.

Definition get : Prog St := fun s => (Ret s, s).
Definition gets {A} (f : St -> A) : Prog A := fun s => (Ret (f s), s).
Definition modify (f : St -> St) : Prog unit := fun s => (Ret tt, f s).

(** a value computed outside the monad that may have thrown *)
Definition lift_outcome {A} (o : Outcome A) : Prog A := fun s => (o, s).
End ProgMonad.
Arguments Prog : clear implicits.

Notation "'let*' x ':=' m 'in' k" := (bind m (fun x => k))
  (at level 10, x name, m at level 100, k at level 200).
Notation "m '>>' k" := (bind m (fun _ => k))
  (at level 100, k at level 200, right associativity).

(** ** The environment *)

Inductive HttpRequest : Type :=
| GetUserInfo (address : string) (authorization : JsVal)
| PostEvmConnect (address sign : string)
| GetBindInvite (inviteCode : string) (authorization : JsVal)
| PostConversation (query address : string) (authorization : JsVal).

Record HttpResponse : Type := mkResponse { status : Z; data : JsVal }.

Record Env : Type := mkEnv {
  env_ADMIN_ID : option Z;          (* parseInt(adminIdInput); None is NaN *)
  env_today : nat -> string;        (* new Date().toISOString().slice(0, 10) *)
  env_random : nat -> nat;          (* the draw behind Math.random() *)
  env_keys : nat -> string * string * string;  (* ethers.Wallet.createRandom() *)
  env_sign : string -> Outcome string;         (* wallet.signMessage(message) *)
  env_http : nat -> HttpRequest -> Outcome HttpResponse;  (* axios; a rejected
                                       promise (network error, non-2xx) is Throw *)
  env_telegram : nat -> bool;       (* does this Telegram API call succeed *)
  env_message_id : nat -> Z         (* message_id of a sent document *)
}.

(** ** Identities *)

Record Wallet : Type := mkWallet {
  address : string;
  privateKey : string;
  mnemonic : string;
  registered : bool;
  chats : nat;
  jwt : JsVal;
  topics : list string;
  usedTopics : list string
}.

Definition set_registered (b : bool) (w : Wallet) : Wallet :=
  mkWallet (address w) (privateKey w) (mnemonic w) b (chats w) (jwt w)
           (topics w) (usedTopics w).
Definition set_chats (n : nat) (w : Wallet) : Wallet :=
  mkWallet (address w) (privateKey w) (mnemonic w) (registered w) n (jwt w)
           (topics w) (usedTopics w).
Definition set_jwt (v : JsVal) (w : Wallet) : Wallet :=
  mkWallet (address w) (privateKey w) (mnemonic w) (registered w) (chats w) v
           (topics w) (usedTopics w).
Definition set_topics (l : list string) (w : Wallet) : Wallet :=
  mkWallet (address w) (privateKey w) (mnemonic w) (registered w) (chats w)
           (jwt w) l (usedTopics w).
Definition set_usedTopics (l : list string) (w : Wallet) : Wallet :=
  mkWallet (address w) (privateKey w) (mnemonic w) (registered w) (chats w)
           (jwt w) (topics w) l.

(** The wallet object a helper works on, with the interaction counter. *)
Record WState : Type := mkWState { wallet : Wallet; wclock : nat }.

Definition on_wallet (f : Wallet -> Wallet) : Prog WState unit :=
  modify (fun s => mkWState (f (wallet s)) (wclock s)).

Section Helpers.
Variable env : Env.

Definition wtick : Prog WState nat :=
  fun s => (Ret (wclock s), mkWState (wallet s) (S (wclock s))).

(** [await axiosInstance.get/post(...)] *)
Definition http (req : HttpRequest) : Prog WState HttpResponse :=
  let* t := wtick in lift_outcome (env_http env t req).

(** [Math.floor(Math.random() * n)], used with [n > 0] only *)
Definition random_index (n : nat) : Prog WState nat :=
  let* t := wtick in ret (env_random env t mod n)%nat.

(** [signMessage(privateKey)] *)
Definition signMessage (key : string) : Prog WState string :=
  lift_outcome (env_sign env key).

(** [registerWallet(wallet, referralCode)], lines 146-182 *)
Definition registerWallet (referralCode : string) : Prog WState bool :=
  try_catch
    (let* addr := gets (fun s => address (wallet s)) in
     http (GetUserInfo addr JsUndefined) >>
     let* key := gets (fun s => privateKey (wallet s)) in
     let* signature := signMessage key in
     let* connectResponse := http (PostEvmConnect addr signature) in
     let* d := lift_outcome (prop_of (data connectResponse) "data") in
     let* token := (if truthy d then lift_outcome (prop_of d "token")
                   else ret JsUndefined) in
     if negb (truthy d) || negb (truthy token)
     then throw "Failed to get authentication token"
     else
       on_wallet (set_jwt token) >>
       let* tok := gets (fun s => jwt (wallet s)) in
       http (GetBindInvite referralCode tok) >>
       let* userInfoResponse := http (GetUserInfo addr tok) in
       let* code := lift_outcome (prop_of (data userInfoResponse) "code") in
       if strict_eq_num code 200
       then on_wallet (set_registered true) >> ret true
       else ret false)
    (fun _ => ret false).

(** [getRandomTopic(wallet)], lines 184-195 *)
Definition getRandomTopic : Prog WState string :=
  let* w := gets wallet in
  match topics w with
  | [] => ret "Default topic"
  | _ :: _ =>
      let available := filter (fun t => t ∉ usedTopics w) (topics w) in
      match available with
      | [] =>
          on_wallet (set_usedTopics []) >>
          let* k := random_index (length (topics w)) in
          ret (nth k (topics w) EmptyString)
      | _ :: _ =>
          let* randomIndex := random_index (length available) in
          let topic := nth randomIndex available EmptyString in
          on_wallet (fun w' => set_usedTopics (usedTopics w' ++ [topic]) w') >>
          ret topic
      end
  end.

(** [performChat(wallet, chatIndex)], lines 197-228; [chatIndex] only
    appears in the console output. *)
Definition performChat (chatIndex : nat) : Prog WState bool :=
  try_catch
    (let* w := gets wallet in
     if negb (truthy (jwt w)) then ret false
     else
       let* topic := getRandomTopic in
       let* chatResponse :=
         http (PostConversation topic (address w) (jwt w)) in
       if status chatResponse =? 200
       then on_wallet (fun w' => set_chats (S (chats w')) w') >> ret true
       else ret false)
    (fun _ => ret false).

(** The loop of [completeDailyChats], lines 232-239: [remaining] turns
    are left, the next has index [i].  The result lists the successive
    values of [success]; the JavaScript function returns nothing, the
    list is kept to state properties of the loop. *)
Fixpoint chat_loop (remaining i : nat) : Prog WState (list bool) :=
  match remaining with
  | O => ret []
  | S r =>
      let* success := performChat i in
      if success
      then let* rest := chat_loop r (S i) in ret (success :: rest)
      else ret [success]
  end.

Definition completeDailyChats : Prog WState (list bool) := chat_loop 5 0.
End Helpers.

(** ** The state of the bot process *)

(** An entry of [usageData]: [{ date: 'YYYY-MM-DD', count: number }] *)
Record QuotaRecord : Type := mkQuota { date : string; count : Z }.

Record Stats : Type := mkStats { totalUsers : Z; totalWalletRequests : Z }.

(** An entry of [userState].  The [stage] tag decides which of [count],
    [referralCode] and [topics] the object carries. *)
Inductive Session : Type :=
| awaiting_count
| awaiting_ref (count : Z)
| awaiting_topics (count : Z) (referralCode : string)
| processing (count : Z) (referralCode : string) (topics : list string).

(** The [stage] of an entry of [adminState] *)
Inductive AdminStage : Type :=
| idle | block | unblock | cancel | change_welcome | set_suffix
| change_max_limit | set_global_caption | broadcast.

Global Instance AdminStage_eq_dec : EqDecision AdminStage.
Proof. solve_decision. Defined.

(** The file [wallet_<chatId>.json]: what [JSON.parse] makes of it.  A
    readable file holds an array of identities, as every write of the
    program produces. *)
Inductive WalletFile : Type :=
| FileCorrupt (message : string)
| FileWallets (wallets : list Wallet).

(** What the Telegram API was asked to deliver, oldest first *)
Inductive Outgoing : Type :=
| OutMessage (chatId : Z) (text : string)
| OutDocument (chatId : Z) (file : string) (caption : string)
| OutPin (chatId : Z) (message_id : Z)
| OutAnswerCallback (id : string) (text : option string)
| OutAnswerInline (id : string).

(** The files the program writes, by constant name in the source *)
Record Disk : Type := mkDisk {
  file_blocked : list Z;
  file_usage : gmap Z QuotaRecord;
  file_stats : Stats;
  file_users : list Z;
  file_welcome : string;
  file_suffix : string;
  file_maxlimit : Z;
  file_globalcaption : string;
  file_wallets : gmap Z WalletFile
}.

(** the update of one file *)
Definition upd_file_blocked (f : list Z -> list Z) (d : Disk) : Disk :=
  mkDisk (f (file_blocked d)) (file_usage d) (file_stats d) (file_users d)
    (file_welcome d) (file_suffix d) (file_maxlimit d) (file_globalcaption d)
    (file_wallets d).
Definition upd_file_usage (f : gmap Z QuotaRecord -> gmap Z QuotaRecord)
    (d : Disk) : Disk :=
  mkDisk (file_blocked d) (f (file_usage d)) (file_stats d) (file_users d)
    (file_welcome d) (file_suffix d) (file_maxlimit d) (file_globalcaption d)
    (file_wallets d).
Definition upd_file_stats (f : Stats -> Stats) (d : Disk) : Disk :=
  mkDisk (file_blocked d) (file_usage d) (f (file_stats d)) (file_users d)
    (file_welcome d) (file_suffix d) (file_maxlimit d) (file_globalcaption d)
    (file_wallets d).
Definition upd_file_users (f : list Z -> list Z) (d : Disk) : Disk :=
  mkDisk (file_blocked d) (file_usage d) (file_stats d) (f (file_users d))
    (file_welcome d) (file_suffix d) (file_maxlimit d) (file_globalcaption d)
    (file_wallets d).
Definition upd_file_welcome (f : string -> string) (d : Disk) : Disk :=
  mkDisk (file_blocked d) (file_usage d) (file_stats d) (file_users d)
    (f (file_welcome d)) (file_suffix d) (file_maxlimit d)
    (file_globalcaption d) (file_wallets d).
Definition upd_file_suffix (f : string -> string) (d : Disk) : Disk :=
  mkDisk (file_blocked d) (file_usage d) (file_stats d) (file_users d)
    (file_welcome d) (f (file_suffix d)) (file_maxlimit d)
    (file_globalcaption d) (file_wallets d).
Definition upd_file_maxlimit (f : Z -> Z) (d : Disk) : Disk :=
  mkDisk (file_blocked d) (file_usage d) (file_stats d) (file_users d)
    (file_welcome d) (file_suffix d) (f (file_maxlimit d))
    (file_globalcaption d) (file_wallets d).
Definition upd_file_globalcaption (f : string -> string) (d : Disk) : Disk :=
  mkDisk (file_blocked d) (file_usage d) (file_stats d) (file_users d)
    (file_welcome d) (file_suffix d) (file_maxlimit d)
    (f (file_globalcaption d)) (file_wallets d).
Definition upd_file_wallets (f : gmap Z WalletFile -> gmap Z WalletFile)
    (d : Disk) : Disk :=
  mkDisk (file_blocked d) (file_usage d) (file_stats d) (file_users d)
    (file_welcome d) (file_suffix d) (file_maxlimit d) (file_globalcaption d)
    (f (file_wallets d)).

(** The module-level variables of [bot.js], the files, the messages
    delivered so far and the counter of external interactions.  A missing
    entry of [pendingRequests] is [undefined]; an entry is its [cancel]
    field. *)
Record World : Type := mkWorld {
  blockedUsers : list Z;
  usageData : gmap Z QuotaRecord;
  stats : Stats;
  usersList : list Z;
  welcomeMessage : string;
  suffix : string;
  maxLimit : Z;
  globalCaption : string;
  pendingRequests : gmap Z bool;
  adminState : gmap Z AdminStage;
  userState : gmap Z Session;
  disk : Disk;
  outbox : list Outgoing;
  clock : nat
}.

(** the update of one variable *)
Definition upd_blockedUsers (f : list Z -> list Z) (w : World) : World :=
  mkWorld (f (blockedUsers w)) (usageData w) (stats w) (usersList w)
    (welcomeMessage w) (suffix w) (maxLimit w) (globalCaption w)
    (pendingRequests w) (adminState w) (userState w) (disk w) (outbox w)
    (clock w).
Definition upd_usageData (f : gmap Z QuotaRecord -> gmap Z QuotaRecord)
    (w : World) : World :=
  mkWorld (blockedUsers w) (f (usageData w)) (stats w) (usersList w)
    (welcomeMessage w) (suffix w) (maxLimit w) (globalCaption w)
    (pendingRequests w) (adminState w) (userState w) (disk w) (outbox w)
    (clock w).
Definition upd_stats (f : Stats -> Stats) (w : World) : World :=
  mkWorld (blockedUsers w) (usageData w) (f (stats w)) (usersList w)
    (welcomeMessage w) (suffix w) (maxLimit w) (globalCaption w)
    (pendingRequests w) (adminState w) (userState w) (disk w) (outbox w)
    (clock w).
Definition upd_usersList (f : list Z -> list Z) (w : World) : World :=
  mkWorld (blockedUsers w) (usageData w) (stats w) (f (usersList w))
    (welcomeMessage w) (suffix w) (maxLimit w) (globalCaption w)
    (pendingRequests w) (adminState w) (userState w) (disk w) (outbox w)
    (clock w).
Definition upd_welcomeMessage (f : string -> string) (w : World) : World :=
  mkWorld (blockedUsers w) (usageData w) (stats w) (usersList w)
    (f (welcomeMessage w)) (suffix w) (maxLimit w) (globalCaption w)
    (pendingRequests w) (adminState w) (userState w) (disk w) (outbox w)
    (clock w).
Definition upd_suffix (f : string -> string) (w : World) : World :=
  mkWorld (blockedUsers w) (usageData w) (stats w) (usersList w)
    (welcomeMessage w) (f (suffix w)) (maxLimit w) (globalCaption w)
    (pendingRequests w) (adminState w) (userState w) (disk w) (outbox w)
    (clock w).
Definition upd_maxLimit (f : Z -> Z) (w : World) : World :=
  mkWorld (blockedUsers w) (usageData w) (stats w) (usersList w)
    (welcomeMessage w) (suffix w) (f (maxLimit w)) (globalCaption w)
    (pendingRequests w) (adminState w) (userState w) (disk w) (outbox w)
    (clock w).
Definition upd_globalCaption (f : string -> string) (w : World) : World :=
  mkWorld (blockedUsers w) (usageData w) (stats w) (usersList w)
    (welcomeMessage w) (suffix w) (maxLimit w) (f (globalCaption w))
    (pendingRequests w) (adminState w) (userState w) (disk w) (outbox w)
    (clock w).
Definition upd_pendingRequests (f : gmap Z bool -> gmap Z bool)
    (w : World) : World :=
  mkWorld (blockedUsers w) (usageData w) (stats w) (usersList w)
    (welcomeMessage w) (suffix w) (maxLimit w) (globalCaption w)
    (f (pendingRequests w)) (adminState w) (userState w) (disk w) (outbox w)
    (clock w).
Definition upd_adminState (f : gmap Z AdminStage -> gmap Z AdminStage)
    (w : World) : World :=
  mkWorld (blockedUsers w) (usageData w) (stats w) (usersList w)
    (welcomeMessage w) (suffix w) (maxLimit w) (globalCaption w)
    (pendingRequests w) (f (adminState w)) (userState w) (disk w) (outbox w)
    (clock w).
Definition upd_userState (f : gmap Z Session -> gmap Z Session)
    (w : World) : World :=
  mkWorld (blockedUsers w) (usageData w) (stats w) (usersList w)
    (welcomeMessage w) (suffix w) (maxLimit w) (globalCaption w)
    (pendingRequests w) (adminState w) (f (userState w)) (disk w) (outbox w)
    (clock w).
Definition upd_disk (f : Disk -> Disk) (w : World) : World :=
  mkWorld (blockedUsers w) (usageData w) (stats w) (usersList w)
    (welcomeMessage w) (suffix w) (maxLimit w) (globalCaption w)
    (pendingRequests w) (adminState w) (userState w) (f (disk w)) (outbox w)
    (clock w).
Definition upd_outbox (f : list Outgoing -> list Outgoing)
    (w : World) : World :=
  mkWorld (blockedUsers w) (usageData w) (stats w) (usersList w)
    (welcomeMessage w) (suffix w) (maxLimit w) (globalCaption w)
    (pendingRequests w) (adminState w) (userState w) (disk w) (f (outbox w))
    (clock w).
Definition upd_clock (f : nat -> nat) (w : World) : World :=
  mkWorld (blockedUsers w) (usageData w) (stats w) (usersList w)
    (welcomeMessage w) (suffix w) (maxLimit w) (globalCaption w)
    (pendingRequests w) (adminState w) (userState w) (disk w) (outbox w)
    (f (clock w)).

(** ** Text helpers: [trim], [split(",")], [join], [parseInt] *)

Definition nl : string := String (Ascii.ascii_of_nat 10) EmptyString.
Definition dquote : string := String (Ascii.ascii_of_nat 34) EmptyString.

Definition is_space (c : Ascii.ascii) : bool :=
  let n := Ascii.nat_of_ascii c in
  (n =? 32)%nat || ((9 <=? n)%nat && (n <=? 13)%nat).

Fixpoint trim_start (l : list Ascii.ascii) : list Ascii.ascii :=
  match l with
  | c :: rest => if is_space c then trim_start rest else l
  | [] => []
  end.

(** [s.trim()] *)
Definition trim (s : string) : string :=
  String.string_of_list_ascii
    (rev (trim_start (rev (trim_start (String.list_ascii_of_string s))))).

(** [s.split(",")]: the pieces between the commas, at least one piece *)
Fixpoint split_comma (cur : string) (s : string) : list string :=
  match s with
  | EmptyString => [cur]
  | String c rest =>
      if Ascii.eqb c ","%char then cur :: split_comma EmptyString rest
      else split_comma (cur +:+ String c EmptyString) rest
  end.

(** [l.join(sep)] *)
Fixpoint join (sep : string) (l : list string) : string :=
  match l with
  | [] => EmptyString
  | [x] => x
  | x :: rest => x +:+ sep +:+ join sep rest
  end.

Definition digit_value (c : Ascii.ascii) : option Z :=
  let n := Ascii.nat_of_ascii c in
  if (48 <=? n)%nat && (n <=? 57)%nat then Some (Z.of_nat (n - 48))
  else if (97 <=? n)%nat && (n <=? 102)%nat then Some (Z.of_nat (n - 87))
  else if (65 <=? n)%nat && (n <=? 70)%nat then Some (Z.of_nat (n - 55))
  else None.

(** the longest prefix of digits in the radix, read as a number *)
Fixpoint digits (radix : Z) (acc : option Z) (l : list Ascii.ascii) : option Z :=
  match l with
  | [] => acc
  | c :: rest =>
      match digit_value c with
      | Some d =>
          if d <? radix
          then digits radix (Some (radix * default 0 acc + d)) rest
          else acc
      | None => acc
      end
  end.

(** [parseInt(s)]; [None] is [NaN].  Leading white space, a sign, a [0x]
    prefix, then digits; what follows the digits is ignored.  The rounding
    of integers beyond 2^53 is not modelled. *)
Definition parseInt (s : string) : option Z :=
  let l := trim_start (String.list_ascii_of_string s) in
  let '(sign, l) :=
    match l with
    | c :: rest =>
        if Ascii.eqb c "-"%char then (-1, rest)
        else if Ascii.eqb c "+"%char then (1, rest)
        else (1, l)
    | [] => (1, l)
    end in
  let '(radix, l) :=
    match l with
    | z :: x :: rest =>
        if Ascii.eqb z "0"%char && (Ascii.eqb x "x"%char || Ascii.eqb x "X"%char)
        then (16, rest) else (10, l)
    | _ => (10, l)
    end in
  (fun n => sign * n) <$> digits radix None l.

(** [text.split(",").map(t => t.trim()).filter(t => t.length > 0)],
    line 515 *)
Definition parse_topics (text : string) : list string :=
  filter (fun t => (0 < String.length t)%nat)
         (map trim (split_comma EmptyString text)).

(** ** Telegram, the clock and the files *)

Definition M : Type -> Type := Prog World.

Section Bot.
Variable env : Env.

Definition tick : M nat :=
  fun w => (Ret (clock w), upd_clock S w).

(** a call of the Telegram API: delivered, or the promise is rejected *)
Definition telegram (o : Outgoing) : M unit :=
  let* t := tick in
  if env_telegram env t
  then modify (upd_outbox (fun l => l ++ [o]))
  else throw "ETELEGRAM".

(** [await bot.sendMessage(chatId, text, ...)] *)
Definition sendMessage (chatId : Z) (text : string) : M unit :=
  telegram (OutMessage chatId text).

(** [await bot.sendDocument(...)], the [message_id] of the result *)
Definition sendDocument (chatId : Z) (file caption : string) : M Z :=
  let* t := gets clock in
  telegram (OutDocument chatId file caption) >>
  ret (env_message_id env t).

Definition pinChatMessage (chatId message_id : Z) : M unit :=
  telegram (OutPin chatId message_id).

Definition answerCallbackQuery (id : string) (text : option string) : M unit :=
  telegram (OutAnswerCallback id text).

(** [new Date().toISOString().slice(0, 10)] *)
Definition today_now : M string :=
  let* t := tick in ret (env_today env t).

Definition save (f : Disk -> Disk) : M unit := modify (upd_disk f).

(** [sendMessageWithHeader(chatId, header, body)], lines 91-101 *)
Definition sendMessageWithHeader (chatId : Z) (header body : string) : M unit :=
  try_catch
    (sendMessage chatId ("```" +:+ nl +:+ header +:+ nl +:+ "```") >>
     let* caption := gets globalCaption in
     let* suf := gets suffix in
     let fullBody := body in
     let fullBody :=
       if String.eqb caption EmptyString then fullBody
       else fullBody +:+ nl +:+ caption in
     let fullBody :=
       if String.eqb suf EmptyString then fullBody
       else fullBody +:+ nl +:+ suf in
     sendMessage chatId fullBody)
    (fun _ => ret tt).

(** [createWallet()], lines 125-137 *)
Definition createWallet : M Wallet :=
  let* t := tick in
  let '(addr, key, phrase) := env_keys env t in
  ret (mkWallet addr key phrase false 0 JsNull [] []).

(** Runs a helper of the QUACK AI block on the wallet object [w]; the
    helper's interactions advance the same counter. *)
Definition with_wallet {A} (w : Wallet) (p : Prog WState A) : M (A * Wallet) :=
  fun world =>
    match p (mkWState w (clock world)) with
    | (Ret a, s) => (Ret (a, wallet s), upd_clock (fun _ => wclock s) world)
    | (Throw e, s) => (Throw e, upd_clock (fun _ => wclock s) world)
    end.
End Bot.

(** ** The job: [processUserRequest], lines 263-327

    The function is [async]: between two [await]s the handlers of other
    events run.  It is cut at the [await randomDelay] of line 278 and right
    after the test of line 279, so that a job is a value that is resumed:
    [AtDelay] waits at line 278 and continues with the checkpoint,
    [InUnit] has passed the checkpoint and continues with lines 283-311. *)

Inductive Phase : Type := AtDelay | InUnit.

Record Job : Type := mkJob {
  job_chatId : Z;
  job_count : Z;
  job_referralCode : string;
  job_topics : list string;
  job_i : nat;
  job_createdWallets : list Wallet;
  job_phase : Phase
}.

Inductive JobStatus : Type :=
| Suspended (j : Job)
| Finished (createdWallets : list Wallet)   (* the function returned *)
| Aborted.                                  (* the [catch] of line 324 *)

Definition wallet_file_name (chatId : Z) : string :=
  "wallet_" +:+ pretty chatId +:+ ".json".

Definition limit_message (used limit : Z) : string :=
  "Daily wallet creation limit reached. You have already created "
  +:+ pretty used +:+ " wallet(s) today. Maximum is " +:+ pretty limit
  +:+ " per day.".

Definition cancelled_message : string :=
  "Your request has been cancelled by the admin.".

Section Job.
Variable env : Env.

(** lines 265-268 *)
Definition quota_rollover (chatId : Z) : M unit :=
  let* today := today_now env in
  let* record := gets (fun w => usageData w !! chatId) in
  let stale :=
    match record with
    | None => true
    | Some r => negb (String.eqb (date r) today)
    end in
  if stale
  then modify (upd_usageData <[chatId := mkQuota today 0]>)
  else ret tt.

(** lines 269-274; [amount] is the parameter [count] of the source.  The
    result tells whether the request goes on. *)
Definition quota_check (chatId amount : Z) : M bool :=
  let* record := gets (fun w => usageData w !! chatId) in
  match record with
  | None => throw "TypeError"
  | Some r =>
      let* limit := gets maxLimit in
      if limit <? count r + amount
      then sendMessage env chatId (limit_message (count r) limit) >> ret false
      else
        modify (upd_stats (fun s =>
          mkStats (totalUsers s) (totalWalletRequests s + amount))) >>
        let* s := gets stats in
        save (upd_file_stats (fun _ => s)) >>
        ret true
  end.

(** the quota gate, lines 265-274 *)
Definition quota_gate (chatId amount : Z) : M bool :=
  quota_rollover chatId >> quota_check chatId amount.

(** lines 313-323 *)
Definition finish (chatId : Z) (createdWallets : list Wallet) : M JobStatus :=
  sendMessage env chatId
    ("Successfully processed " +:+ pretty (length createdWallets)
     +:+ " wallet(s).") >>
  try_catch
    (let* message_id :=
       sendDocument env chatId (wallet_file_name chatId) "@Zoro_referralbot" in
     try_catch (pinChatMessage env chatId message_id) (fun _ => ret tt))
    (fun e => sendMessage env chatId ("Error sending your wallet file: " +:+ e)) >>
  ret (Finished createdWallets).

(** the loop test [i < count] of line 277 *)
Definition loop_head (j : Job) : M JobStatus :=
  if Z.of_nat (job_i j) <? job_count j
  then ret (Suspended j)
  else finish (job_chatId j) (job_createdWallets j).

(** lines 265-277, up to the first [await] *)
Definition processUserRequest_begin
    (chatId amount : Z) (referralCode : string) (topics : list string)
  : M JobStatus :=
  try_catch
    (let* granted := quota_gate chatId amount in
     if granted
     then loop_head (mkJob chatId amount referralCode topics 0 [] AtDelay)
     else ret (Finished []))
    (fun _ => ret Aborted).

(** lines 279-282: the per-unit checkpoint *)
Definition checkpoint (j : Job) : M JobStatus :=
  let* pending := gets (fun w => pendingRequests w !! job_chatId j) in
  if default false pending
  then sendMessage env (job_chatId j) cancelled_message >>
       finish (job_chatId j) (job_createdWallets j)
  else ret (Suspended
         (mkJob (job_chatId j) (job_count j) (job_referralCode j)
                (job_topics j) (job_i j) (job_createdWallets j) InUnit)).

(** lines 295-305: append the identity to the actor's file *)
Definition persist_wallet (chatId : Z) (w : Wallet) : M unit :=
  let* file := gets (fun world => file_wallets (disk world) !! chatId) in
  let* existing :=
    match file with
    | None => ret []
    | Some (FileWallets l) => ret l
    | Some (FileCorrupt message) =>
        sendMessage env chatId ("Error reading your wallet file: " +:+ message) >>
        ret []
    end in
  save (upd_file_wallets <[chatId := FileWallets (existing ++ [w])]>).

(** lines 283-311 and the loop test that follows *)
Definition unit_body (j : Job) : M JobStatus :=
  let chatId := job_chatId j in
  let* w := createWallet env in
  let w := set_topics (job_topics j) w in
  if negb (String.length (job_referralCode j) =? 6)%nat
  then sendMessage env chatId
         "Referral code must be exactly 6 letters. Request cancelled." >>
       finish chatId (job_createdWallets j)
  else
    let* r := with_wallet w (registerWallet env (job_referralCode j)) in
    let '(isRegistered, w) := r in
    let* w :=
      (if isRegistered : bool
       then let* r := with_wallet w (completeDailyChats env) in ret (snd r)
       else ret w) in
    let createdWallets := job_createdWallets j ++ [w] in
    persist_wallet chatId w >>
    sendMessageWithHeader env chatId "✅️ Successful ✅️"
      ("Wallet " +:+ pretty (job_i j + 1)%nat +:+ "️⃣ of "
       +:+ pretty (job_count j) +:+ "️⃣ created") >>
    let* record := gets (fun world => usageData world !! chatId) in
    match record with
    | None => throw "TypeError"
    | Some r =>
        modify (upd_usageData <[chatId := mkQuota (date r) (count r + 1)]>) >>
        let* usage := gets usageData in
        save (upd_file_usage (fun _ => usage)) >>
        loop_head (mkJob chatId (job_count j) (job_referralCode j)
                         (job_topics j) (S (job_i j)) createdWallets AtDelay)
    end.

(** Resuming a suspended job, inside the [try] of line 264 *)
Definition resume (j : Job) : M JobStatus :=
  try_catch
    (match job_phase j with
     | AtDelay => checkpoint j
     | InUnit => unit_body j
     end)
    (fun _ => ret Aborted).
End Job.

(** ** The Telegram handlers *)

Section Handlers.
Variable env : Env.

Definition is_admin (chatId : Z) : bool :=
  bool_decide (env_ADMIN_ID env = Some chatId).

Definition with_captions (text : string) : M string :=
  let* caption := gets globalCaption in
  let* suf := gets suffix in
  let text :=
    if String.eqb caption EmptyString then text else text +:+ nl +:+ caption in
  ret (if String.eqb suf EmptyString then text else text +:+ nl +:+ suf).

(** [handleStart(chatId)], lines 248-261 *)
Definition handleStart (chatId : Z) : M unit :=
  let* users := gets usersList in
  (if bool_decide (chatId ∈ users) then ret tt
   else
     modify (upd_usersList (fun l => l ++ [chatId])) >>
     let* users := gets usersList in
     save (upd_file_users (fun _ => users)) >>
     modify (upd_stats (fun s =>
       mkStats (totalUsers s + 1) (totalWalletRequests s))) >>
     let* s := gets stats in
     save (upd_file_stats (fun _ => s))) >>
  let* welcome := gets welcomeMessage in
  let* fullWelcome := with_captions welcome in
  sendMessage env chatId fullWelcome >>
  let* limit := gets maxLimit in
  sendMessage env chatId
    ("Please enter the number of wallets you want to create (max "
     +:+ pretty limit +:+ " per day):") >>
  modify (upd_userState <[chatId := awaiting_count]>).

Definition admin_idle (chatId : Z) : M unit :=
  modify (upd_adminState <[chatId := idle]>).

(** line 428 *)
Definition mark_cancelled (targetId : Z) : M unit :=
  modify (upd_pendingRequests <[targetId := true]>).

(** the loop of lines 471-476 *)
Fixpoint broadcast_to (text : string) (users : list Z) : M unit :=
  match users with
  | [] => ret tt
  | userId :: rest =>
      try_catch
        (sendMessage env userId ("```" +:+ nl +:+ "Broadcast" +:+ nl +:+ "```") >>
         sendMessage env userId text)
        (fun _ => ret tt) >>
      broadcast_to text rest
  end.

(** the [switch] of lines 389-483, the admin being in [stage] *)
Definition admin_stage (chatId : Z) (stage : AdminStage) (text : string)
  : M unit :=
  match stage with
  | idle => ret tt
  | block =>
      match parseInt (trim text) with
      | None =>
          sendMessage env chatId "Invalid chat ID. Please send a valid number."
      | Some targetId =>
          let* blocked := gets blockedUsers in
          (if bool_decide (targetId ∈ blocked)
           then sendMessage env chatId
                  ("User " +:+ pretty targetId +:+ " is already blocked.")
           else
             modify (upd_blockedUsers (fun l => l ++ [targetId])) >>
             let* blocked := gets blockedUsers in
             save (upd_file_blocked (fun _ => blocked)) >>
             sendMessage env chatId
               ("User " +:+ pretty targetId +:+ " has been blocked 🚫.")) >>
          admin_idle chatId
      end
  | unblock =>
      match parseInt (trim text) with
      | None =>
          sendMessage env chatId "Invalid chat ID. Please send a valid number."
      | Some targetId =>
          let* blocked := gets blockedUsers in
          (if bool_decide (targetId ∈ blocked)
           then
             modify (upd_blockedUsers (filter (fun id => id ≠ targetId))) >>
             let* blocked := gets blockedUsers in
             save (upd_file_blocked (fun _ => blocked)) >>
             sendMessage env chatId
               ("User " +:+ pretty targetId +:+ " has been unblocked.")
           else sendMessage env chatId
                  ("User " +:+ pretty targetId +:+ " is not in the blocked list.")) >>
          admin_idle chatId
      end
  | cancel =>
      match parseInt (trim text) with
      | None =>
          sendMessage env chatId "Invalid chat ID. Please send a valid number."
      | Some targetId =>
          mark_cancelled targetId >>
          sendMessage env chatId
            ("Wallet creation request for user " +:+ pretty targetId
             +:+ " has been cancelled.") >>
          try_catch
            (sendMessage env targetId
               "Your wallet creation request has been cancelled by the admin.")
            (fun _ => ret tt) >>
          admin_idle chatId
      end
  | change_welcome =>
      modify (upd_welcomeMessage (fun _ => text)) >>
      save (upd_file_welcome (fun _ => text)) >>
      sendMessage env chatId "Welcome message updated." >>
      admin_idle chatId
  | set_suffix =>
      modify (upd_suffix (fun _ => text)) >>
      save (upd_file_suffix (fun _ => text)) >>
      sendMessage env chatId "Suffix updated." >>
      admin_idle chatId
  | change_max_limit =>
      match parseInt (trim text) with
      | None =>
          sendMessage env chatId
            "Please provide a valid positive number for max limit."
      | Some newLimit =>
          if newLimit <=? 0
          then sendMessage env chatId
                 "Please provide a valid positive number for max limit."
          else
            modify (upd_maxLimit (fun _ => newLimit)) >>
            save (upd_file_maxlimit (fun _ => newLimit)) >>
            sendMessage env chatId
              ("Max wallet creation limit updated to " +:+ pretty newLimit +:+ ".") >>
            admin_idle chatId
      end
  | set_global_caption =>
      modify (upd_globalCaption (fun _ => text)) >>
      save (upd_file_globalcaption (fun _ => text)) >>
      sendMessage env chatId "Global caption updated." >>
      admin_idle chatId
  | broadcast =>
      let* users := gets usersList in
      broadcast_to text users >>
      sendMessage env chatId "Broadcast message sent to all users." >>
      admin_idle chatId
  end.

(** the session stages of lines 490-526; the result lists the job that
    the call of [processUserRequest] on line 523 left suspended *)
Definition session_stage (chatId : Z) (state : Session) (text : string)
  : M (list Job) :=
  match state with
  | awaiting_count =>
      let* limit := gets maxLimit in
      match parseInt text with
      | Some n =>
          if (n <=? 0) || (limit <? n)
          then sendMessage env chatId
                 ("Please enter a valid number (1-" +:+ pretty limit +:+ ").")
          else
            modify (upd_userState <[chatId := awaiting_ref n]>) >>
            sendMessage env chatId
              "Please enter your referral code (exactly 6 letters):"
      | None =>
          sendMessage env chatId
            ("Please enter a valid number (1-" +:+ pretty limit +:+ ").")
      end >>
      ret []
  | awaiting_ref n =>
      let refCode := trim text in
      (if negb (String.length refCode =? 6)%nat
       then sendMessage env chatId
              "Referral code must be exactly 6 letters. Please try again."
       else
         modify (upd_userState <[chatId := awaiting_topics n refCode]>) >>
         sendMessage env chatId "Please send your topics (separated by commas):") >>
      ret []
  | awaiting_topics n refCode =>
      let topics := parse_topics text in
      match topics with
      | [] =>
          sendMessage env chatId
            "You must provide at least one topic. Please try again." >>
          ret []
      | _ :: _ =>
          modify (upd_userState <[chatId := processing n refCode topics]>) >>
          sendMessage env chatId
            ("Starting wallet creation for " +:+ pretty n
             +:+ " wallet(s) with referral code " +:+ dquote +:+ refCode
             +:+ dquote +:+ " and topics: " +:+ join "; " topics +:+ "."
             +:+ nl +:+ "Please wait...") >>
          let* started := processUserRequest_begin env chatId n refCode topics in
          modify (upd_userState (delete chatId)) >>
          ret (match started with Suspended j => [j] | _ => [] end)
      end
  | processing _ _ _ => ret []
  end.

(** [bot.on('message', ...)], lines 376-527, for a text message *)
Definition on_message (chatId : Z) (text : string) : M (list Job) :=
  let* blocked := gets blockedUsers in
  if bool_decide (chatId ∈ blocked)
  then sendMessage env chatId "You are blocked 🚫." >> ret []
  else if is_admin chatId && String.eqb text "/admin"
  then
    admin_idle chatId >>
    sendMessage env chatId "Admin Menu:" >>
    ret []
  else
    let* stage := gets (fun w => adminState w !! chatId) in
    match (if is_admin chatId then stage else None) with
    | Some block | Some unblock | Some cancel | Some change_welcome
    | Some set_suffix | Some change_max_limit | Some set_global_caption
    | Some broadcast =>
        admin_stage chatId (default idle stage) text >> ret []
    | Some idle | None =>
        if String.eqb text "/start"
        then handleStart chatId >> ret []
        else
          let* state := gets (fun w => userState w !! chatId) in
          match state with
          | None => ret []
          | Some state => session_stage chatId state text
          end
    end.

(** [bot.on('callback_query', ...)], lines 529-576 *)
Definition on_callback_query (id : string) (from : Z) (action : string)
  : M unit :=
  if negb (is_admin from)
  then answerCallbackQuery env id
         (Some "You are not authorized to perform this action.")
  else
    let ask (stage : AdminStage) (prompt : string) : M unit :=
      modify (upd_adminState <[from := stage]>) >>
      sendMessage env from prompt in
    (if String.eqb action "block_user"
     then ask block "Please send the chat ID of the user to block:"
     else if String.eqb action "unblock_user"
     then ask unblock "Please send the chat ID of the user to unblock:"
     else if String.eqb action "cancel_request"
     then ask cancel
            "Please send the chat ID of the user whose request you want to cancel:"
     else if String.eqb action "show_stats"
     then
       let* s := gets stats in
       let* limit := gets maxLimit in
       sendMessage env from
         ("*Stats:*" +:+ nl +:+ "Total Users: " +:+ pretty (totalUsers s)
          +:+ nl +:+ "Total Wallet Requests: "
          +:+ pretty (totalWalletRequests s) +:+ nl +:+ "Max Limit: "
          +:+ pretty limit)
     else if String.eqb action "change_welcome"
     then ask change_welcome "Please send the new welcome message:"
     else if String.eqb action "set_suffix"
     then ask set_suffix "Please send the new suffix text:"
     else if String.eqb action "change_max_limit"
     then ask change_max_limit
            "Please send the new maximum wallet creation limit:"
     else if String.eqb action "set_global_caption"
     then ask set_global_caption
            "Please send the new global caption text (this will be appended to all messages):"
     else if String.eqb action "broadcast"
     then ask broadcast "Please send the message to broadcast to all users:"
     else ret tt) >>
    answerCallbackQuery env id None.

(** [bot.on('inline_query', ...)], lines 364-374; the call is not awaited *)
Definition on_inline_query (id : string) : M unit :=
  try_catch (telegram env (OutAnswerInline id)) (fun _ => ret tt).
End Handlers.

(** ** The running process

    The process is its variables and files together with the jobs that are
    suspended at an [await].  An event is handled to its end before the
    next one; a handler that throws is dropped with the changes it made. *)

Record System : Type := mkSystem { world : World; jobs : list Job }.

Inductive Event : Type :=
| EvMessage (chatId : Z) (text : string)
| EvCallbackQuery (id : string) (from : Z) (action : string)
| EvInlineQuery (id : string)
| EvResume (k : nat).    (* the [k]-th suspended job continues *)

Section Process.
Variable env : Env.

Definition step (ev : Event) (s : System) : System :=
  match ev with
  | EvMessage chatId text =>
      match on_message env chatId text (world s) with
      | (Ret started, w) => mkSystem w (jobs s ++ started)
      | (Throw _, w) => mkSystem w (jobs s)
      end
  | EvCallbackQuery id from action =>
      mkSystem (snd (on_callback_query env id from action (world s))) (jobs s)
  | EvInlineQuery id =>
      mkSystem (snd (on_inline_query env id (world s))) (jobs s)
  | EvResume k =>
      match jobs s !! k with
      | None => s
      | Some j =>
          match resume env j (world s) with
          | (Ret (Suspended j'), w) => mkSystem w (<[k := j']> (jobs s))
          | (_, w) => mkSystem w (delete k (jobs s))
          end
      end
  end.

Definition run (evs : list Event) (s : System) : System :=
  foldl (fun s ev => step ev s) s evs.
End Process.

(** ** The registration handshake seen from the environment *)

Section Handshake.
Variables (env : Env) (referralCode : string) (w : Wallet) (t : nat).

(** The answers that the environment holds for the calls of
    [registerWallet] on [w], the first being interaction number [t]. *)
Definition profile_answer : Outcome HttpResponse :=
  env_http env t (GetUserInfo (address w) JsUndefined).
Definition sign_answer : Outcome string :=
  env_sign env (privateKey w).
Definition connect_answer (signature : string) : Outcome HttpResponse :=
  env_http env (S t) (PostEvmConnect (address w) signature).
Definition bind_answer (token : JsVal) : Outcome HttpResponse :=
  env_http env (S (S t)) (GetBindInvite referralCode token).
Definition requery_answer (token : JsVal) : Outcome HttpResponse :=
  env_http env (S (S (S t))) (GetUserInfo (address w) token).

(** the token of an authentication response, when it carries one *)
Definition token_of (r : HttpResponse) : option JsVal :=
  match prop_of (data r) "data" with
  | Ret d =>
      if truthy d
      then match prop_of d "token" with
           | Ret token => if truthy token then Some token else None
           | Throw _ => None
           end
      else None
  | Throw _ => None
  end.

(** the re-query reports the success code *)
Definition reports_200 (r : HttpResponse) : bool :=
  match prop_of (data r) "code" with
  | Ret code => strict_eq_num code 200
  | Throw _ => false
  end.

(** One of the four steps fails: a call is rejected, or the
    authentication response carries no token. *)
Inductive handshake_fails : Prop :=
| fails_profile e :
    profile_answer = Throw e -> handshake_fails
| fails_sign e :
    sign_answer = Throw e -> handshake_fails
| fails_connect signature e :
    sign_answer = Ret signature -> connect_answer signature = Throw e ->
    handshake_fails
| fails_token signature r :
    sign_answer = Ret signature -> connect_answer signature = Ret r ->
    token_of r = None -> handshake_fails
| fails_bind signature r token e :
    sign_answer = Ret signature -> connect_answer signature = Ret r ->
    token_of r = Some token -> bind_answer token = Throw e ->
    handshake_fails
| fails_requery signature r token e :
    sign_answer = Ret signature -> connect_answer signature = Ret r ->
    token_of r = Some token -> requery_answer token = Throw e ->
    handshake_fails.

(** Steps 1 to 3 succeed and yield [token]. *)
Definition authenticated (token : JsVal) : Prop :=
  exists r1 signature r3,
    profile_answer = Ret r1 /\ sign_answer = Ret signature /\
    connect_answer signature = Ret r3 /\ token_of r3 = Some token.

(** The four calls succeed and the re-query reports code 200. *)
Definition handshake_succeeds : Prop :=
  exists token r4 r5,
    authenticated token /\ bind_answer token = Ret r4 /\
    requery_answer token = Ret r5 /\ reports_200 r5 = true.

(** What [registerWallet] computes, answer by answer. *)
Definition registration_result : Outcome bool * WState :=
  match profile_answer, sign_answer with
  | Throw _, _ | _, Throw _ => (Ret false, mkWState w (S t))
  | Ret _, Ret signature =>
      match connect_answer signature with
      | Throw _ => (Ret false, mkWState w (S (S t)))
      | Ret r3 =>
          match token_of r3 with
          | None => (Ret false, mkWState w (S (S t)))
          | Some token =>
              let w1 := set_jwt token w in
              match bind_answer token with
              | Throw _ => (Ret false, mkWState w1 (S (S (S t))))
              | Ret _ =>
                  match requery_answer token with
                  | Throw _ => (Ret false, mkWState w1 (S (S (S (S t)))))
                  | Ret r5 =>
                      if reports_200 r5
                      then (Ret true, mkWState (set_registered true w1)
                                               (S (S (S (S t)))))
                      else (Ret false, mkWState w1 (S (S (S (S t)))))
                  end
              end
          end
      end
  end.
End Handshake.

(** ** Sample environments and states, used to run the model *)

Definition sample_http (r : HttpRequest) : HttpResponse :=
  match r with
  | PostEvmConnect _ _ =>
      mkResponse 200 (JsObj [("data", JsObj [("token", JsStr "tok")])])
  | GetUserInfo _ _ => mkResponse 200 (JsObj [("code", JsNum 200)])
  | GetBindInvite _ _ | PostConversation _ _ _ => mkResponse 200 JsNull
  end.

(** An environment in which interaction [t] is rejected when [down t]
    holds, be it an HTTP call or a Telegram call; the admin is actor 1. *)
Definition sample_env (down : nat -> bool) : Env :=
  mkEnv (Some 1)
        (fun _ => "2024-05-17")
        (fun t => t)
        (fun t => ("0xA" +:+ pretty t, "key" +:+ pretty t, "phrase" +:+ pretty t))
        (fun key => Ret ("signed:" +:+ key))
        (fun t r => if down t then Throw "ECONNRESET" else Ret (sample_http r))
        (fun t => negb (down t))
        (fun t => Z.of_nat t).

Definition env_up : Env := sample_env (fun _ => false).

(** the authentication endpoint answers without a token *)
Definition env_no_token : Env :=
  mkEnv (Some 1) (env_today env_up) (env_random env_up) (env_keys env_up)
        (env_sign env_up)
        (fun t r => Ret (match r with
                         | PostEvmConnect _ _ => mkResponse 200 (JsObj [("data", JsNull)])
                         | _ => sample_http r
                         end))
        (env_telegram env_up) (env_message_id env_up).

(** the profile re-query answers with code 401 *)
Definition env_code_401 : Env :=
  mkEnv (Some 1) (env_today env_up) (env_random env_up) (env_keys env_up)
        (env_sign env_up)
        (fun t r => Ret (match r with
                         | GetUserInfo _ _ => mkResponse 200 (JsObj [("code", JsNum 401)])
                         | _ => sample_http r
                         end))
        (env_telegram env_up) (env_message_id env_up).

Definition sample_wallet : Wallet :=
  mkWallet "0xA0" "key0" "phrase0" false 0 JsNull ["t1"; "t2"] [].

(** ** Successive calls of the topic selector *)

(** the topics of the identity that are not in [usedTopics] (line 186) *)
Definition available (w : Wallet) : list string :=
  filter (fun t => t ∉ usedTopics w) (topics w).

(** all topics have been used *)
Definition all_used (w : Wallet) : Prop :=
  forall t, t ∈ topics w -> t ∈ usedTopics w.

(** [n] successive calls of [getRandomTopic]: the state each call starts
    from, with the topic it returns. *)
Fixpoint topic_trace (env : Env) (n : nat) (s : WState) : list (WState * string) :=
  match n with
  | O => []
  | S n' =>
      match getRandomTopic env s with
      | (Ret topic, s') => (s, topic) :: topic_trace env n' s'
      | (Throw _, _) => []
      end
  end.

(** Two calls return the same topic only if all topics were used at the
    start of a call after the first of the two, up to the second. *)
Definition no_repeat_before_exhaustion (trace : list (WState * string)) : Prop :=
  forall i j si sj topic,
    (i < j)%nat ->
    trace !! i = Some (si, topic) -> trace !! j = Some (sj, topic) ->
    exists k sk tk,
      (i < k <= j)%nat /\ trace !! k = Some (sk, tk) /\ all_used (wallet sk).

(** The same, the first of the two calls included. *)
Definition no_repeat_without_exhaustion (trace : list (WState * string)) : Prop :=
  forall i j si sj topic,
    (i < j)%nat ->
    trace !! i = Some (si, topic) -> trace !! j = Some (sj, topic) ->
    exists k sk tk,
      (i <= k <= j)%nat /\ trace !! k = Some (sk, tk) /\ all_used (wallet sk).

(** every random draw is 0 *)
Definition env_draw0 : Env :=
  mkEnv (Some 1) (env_today env_up) (fun _ => O) (env_keys env_up)
        (env_sign env_up) (env_http env_up) (env_telegram env_up)
        (env_message_id env_up).

(** ** A conversation turn seen from the environment *)

(** The turn that [performChat] runs from [s] gets a response with status
    200: the identity has a session token, and the conversation endpoint
    answers 200 to the topic that the selector picks. *)
Definition turn_succeeds (env : Env) (s : WState) : Prop :=
  truthy (jwt (wallet s)) = true /\
  exists topic s1 r,
    getRandomTopic env s = (Ret topic, s1) /\
    env_http env (wclock s1)
      (PostConversation topic (address (wallet s)) (jwt (wallet s))) = Ret r /\
    status r = 200.

(** the number of successful turns among the values of [success] *)
Definition successes (results : list bool) : nat :=
  length (filter (fun b => b = true) results).

(** ** The quota ledger seen from outside *)

(** what the actor has used on the day [today], by the stored record *)
Definition prior_same_day_count (today : string) (record : option QuotaRecord) : Z :=
  match record with
  | Some r => if String.eqb (date r) today then count r else 0
  | None => 0
  end.

(** the ledger after the day rollover of lines 266-268 *)
Definition rolled_over (today : string) (chatId : Z)
    (usage : gmap Z QuotaRecord) : gmap Z QuotaRecord :=
  match usage !! chatId with
  | Some r => if String.eqb (date r) today then usage
              else <[chatId := mkQuota today 0]> usage
  | None => <[chatId := mkQuota today 0]> usage
  end.

Definition sample_disk : Disk :=
  mkDisk [] ∅ (mkStats 0 0) [] "Welcome" EmptyString 100 EmptyString ∅.

(** a freshly started process with the default ceiling of 100 *)
Definition sample_world : World :=
  mkWorld [] ∅ (mkStats 0 0) [] "Welcome" EmptyString 100 EmptyString
          ∅ ∅ ∅ sample_disk [] 0.

(** actor 7 created 8 identities on [day]; the ceiling is [limit] *)
Definition world_used8 (day : string) (limit : Z) : World :=
  upd_maxLimit (fun _ => limit)
    (upd_usageData <[7 := mkQuota day 8]> sample_world).

(** the world after the quota gate denied or granted the request made at
    the state [w] *)
Definition gate_today (env : Env) (w : World) : string := env_today env (clock w).

Definition gate_used (env : Env) (chatId : Z) (w : World) : Z :=
  prior_same_day_count (gate_today env w) (usageData w !! chatId).

Definition after_rollover (env : Env) (chatId : Z) (w : World) : World :=
  upd_usageData (rolled_over (gate_today env w) chatId) (upd_clock S w).

(** ** Invariants of programs *)

(** [m] keeps [P], whether it returns or throws *)
Definition preserves {A} (P : World -> Prop) (m : M A) : Prop :=
  forall w, P w -> P (snd (m w)).

(** every value that [m] returns satisfies [R] *)
Definition returns {A} (R : A -> Prop) (m : M A) : Prop :=
  forall w a w', m w = (Ret a, w') -> R a.

(** [P] does not depend on the messages delivered nor on the counter of
    interactions *)
Definition io_stable (P : World -> Prop) : Prop :=
  (forall w f, P w -> P (upd_clock f w)) /\
  (forall w f, P w -> P (upd_outbox f w)).

(** ** The cancel flag *)

(** the admin has cancelled the requests of actor [a] *)
Definition cancelled (a : Z) (w : World) : Prop :=
  pendingRequests w !! a = Some true.

(** the identities persisted for actor [a] are those of [file] *)
Definition cancelled_with_file (a : Z) (file : option WalletFile) (w : World) : Prop :=
  cancelled a w /\ file_wallets (disk w) !! a = file.




Definition sample_system : System := mkSystem sample_world [].

(** the messages by which an actor asks for [n] identities *)
Definition dialogue (chatId : Z) (n : string) : list Event :=
  [EvMessage chatId "/start"; EvMessage chatId n;
   EvMessage chatId "ABCDEF"; EvMessage chatId "t1, t2"].

(** the admin (actor 1) cancels the requests of actor 7 *)
Definition admin_cancels_7 : list Event :=
  [EvMessage 1 "/admin"; EvCallbackQuery "cb" 1 "cancel_request"; EvMessage 1 "7"].

(** ** Specifications of programs *)

(** from a state in [P], [m] returns [a] in a state in [Q a], or throws in
    a state in [E] *)
Definition triple {A} (P : World -> Prop) (m : M A)
    (Q : A -> World -> Prop) (E : World -> Prop) : Prop :=
  forall w, P w ->
    match m w with
    | (Ret a, w') => Q a w'
    | (Throw _, w') => E w'
    end.

(** ** A job run to its end *)

(** The job runs on; before its [k]-th resumption from now the handlers
    that ran meanwhile have turned [pendingRequests] into [interfere k] of
    it (the admin cancels whom it wants, when it wants).  Resumption [2 i]
    is the checkpoint of unit [i], resumption [2 i + 1] its body. *)
Fixpoint run_job (env : Env) (interfere : nat -> gmap Z bool -> gmap Z bool)
    (fuel k : nat) (st : JobStatus) : M JobStatus :=
  match fuel, st with
  | S fuel', Suspended j =>
      modify (upd_pendingRequests (interfere k)) >>
      let* st' := resume env j in
      run_job env interfere fuel' (S k) st'
  | _, _ => ret st
  end.

(** [processUserRequest(chatId, count, referralCode, topics)] from its
    call to its return, with the interference of the handlers on
    [pendingRequests] *)
Definition processUserRequest (env : Env)
    (interfere : nat -> gmap Z bool -> gmap Z bool)
    (chatId amount : Z) (referralCode : string) (topics : list string)
  : M JobStatus :=
  let* st := processUserRequest_begin env chatId amount referralCode topics in
  run_job env interfere (2 * Z.to_nat amount + 1) O st.



(** the identities on the file of [chatId] *)
Definition wallets_on_file (chatId : Z) (w : World) : list Wallet :=
  match file_wallets (disk w) !! chatId with
  | Some (FileWallets l) => l
  | Some (FileCorrupt _) | None => []
  end.


Definition used_count (chatId : Z) (w : World) : option Z :=
  count <$> usageData w !! chatId.








(** ** Jobs per actor *)

(** the suspended jobs of actor [a] *)
Definition jobs_of (a : Z) (s : System) : list Job :=
  filter (fun j => job_chatId j = a) (jobs s).

(** no actor has two jobs *)
Definition one_job_per_actor (s : System) : Prop :=
  forall a, (length (jobs_of a s) <= 1)%nat.




(** ** The copies on file *)

(** the files of the block list, the registry, the statistics and the
    configuration hold what the variables hold *)
Definition mirrored (w : World) : Prop :=
  file_blocked (disk w) = blockedUsers w /\
  file_users (disk w) = usersList w /\
  file_stats (disk w) = stats w /\
  file_welcome (disk w) = welcomeMessage w /\
  file_suffix (disk w) = suffix w /\
  file_maxlimit (disk w) = maxLimit w /\
  file_globalcaption (disk w) = globalCaption w.

(** ** The user registry *)

(** lines 250-253: the actor is appended to the registry and counted *)
Definition register_user (chatId : Z) : M unit :=
  modify (upd_usersList (fun l => l ++ [chatId])) >>
  let* users := gets usersList in
  save (upd_file_users (fun _ => users)) >>
  modify (upd_stats (fun s =>
    mkStats (totalUsers s + 1) (totalWalletRequests s))) >>
  let* s := gets stats in
  save (upd_file_stats (fun _ => s)).

(** lines 255-260: the welcome, the prompt and the new session *)
Definition start_session (env : Env) (chatId : Z) : M unit :=
  let* welcome := gets welcomeMessage in
  let* fullWelcome := with_captions welcome in
  sendMessage env chatId fullWelcome >>
  let* limit := gets maxLimit in
  sendMessage env chatId
    ("Please enter the number of wallets you want to create (max "
     +:+ pretty limit +:+ " per day):") >>
  modify (upd_userState <[chatId := awaiting_count]>).

(** the registry has no duplicate, and [totalUsers] counts it up to the
    offset [base] *)
Definition registry_ok (base : Z) (w : World) : Prop :=
  NoDup (usersList w) /\
  totalUsers (stats w) = base + Z.of_nat (length (usersList w)).

(** ** What the admin decides *)

(** the block list, the ceiling, the three texts and the cancel flags,
    with the files of the first five *)
Definition settings (w : World)
  : list Z * Z * string * string * string * gmap Z bool
    * (list Z * Z * string * string * string) :=
  (blockedUsers w, maxLimit w, welcomeMessage w, suffix w, globalCaption w,
   pendingRequests w,
   (file_blocked (disk w), file_maxlimit (disk w), file_welcome (disk w),
    file_suffix (disk w), file_globalcaption (disk w))).

(** the event is a text message of the admin *)
Definition admin_message (env : Env) (ev : Event) : bool :=
  match ev with
  | EvMessage chatId _ => is_admin env chatId
  | _ => false
  end.

(** the answer to a blocked actor, line 380 *)
Definition blocked_message : string := "You are blocked 🚫.".

(** ** Sessions *)


(** the actor reaches the session stages of the message handler: it is
    not blocked, it is not the admin and the text is not the start
    command *)
Definition plain_message (env : Env) (chatId : Z) (text : string) (w : World) : Prop :=
  (chatId ∉ blockedUsers w) /\ is_admin env chatId = false /\ text <> "/start".



(** a topic as the handler hands it to the job: not empty, no white space
    around it *)
Definition clean_topic (t : string) : Prop :=
  t <> EmptyString /\ trim t = t.

Definition wf_session (state : Session) : Prop :=
  match state with
  | awaiting_count => True
  | awaiting_ref n => 1 <= n
  | awaiting_topics n refCode => 1 <= n /\ String.length refCode = 6%nat
  | processing n refCode topics =>
      1 <= n /\ String.length refCode = 6%nat /\
      topics <> [] /\ Forall clean_topic topics
  end.

Definition wf_job (j : Job) : Prop :=
  Z.of_nat (job_i j) < job_count j /\
  String.length (job_referralCode j) = 6%nat /\
  job_topics j <> [] /\ Forall clean_topic (job_topics j).

Definition wf_sessions (w : World) : Prop :=
  forall chatId state, userState w !! chatId = Some state -> wf_session state.

Definition wf_system (s : System) : Prop :=
  wf_sessions (world s) /\ Forall wf_job (jobs s).

(** ** The books of a job *)



(** ** The identities on file *)

(** the used topics of an identity are topics of it, each marked once *)
Definition topics_ok (wl : Wallet) : Prop :=
  usedTopics wl ⊆ topics wl /\ NoDup (usedTopics wl).

(** an identity as a unit of a job leaves it: at most five conversations;
    registered only with a token; without registration no conversation
    and no topic used *)
Definition sound_identity (wl : Wallet) : Prop :=
  (chats wl <= 5)%nat /\
  (registered wl = true -> truthy (jwt wl) = true) /\
  (registered wl = false -> chats wl = 0%nat /\ usedTopics wl = []) /\
  topics_ok wl.

(** every readable wallet file holds sound identities *)
Definition files_sound (w : World) : Prop :=
  forall chatId l,
    file_wallets (disk w) !! chatId = Some (FileWallets l) ->
    Forall sound_identity l.

(** what the registration of a fresh identity leaves: with the result
    [b] true, the conversation runner makes a sound identity of [w1];
    with [b] false, [w1] is sound as it is *)
Definition unit_ready (env : Env) (b : bool) (w1 : Wallet) : Prop :=
  if b
  then forall t,
         match completeDailyChats env (mkWState w1 t) with
         | (Ret _, s2) => sound_identity (wallet s2)
         | (Throw _, _) => False
         end
  else sound_identity w1.

(** ** The admin panel *)







(** the texts that the admin sets and that are appended to messages *)
Inductive Decoration : Type := TheSuffix | TheGlobalCaption.

Definition decoration (d : Decoration) (w : World) : string :=
  match d with
  | TheSuffix => suffix w
  | TheGlobalCaption => globalCaption w
  end.

Definition decoration_set (d : Decoration) (w : World) : Prop :=
  decoration d w <> EmptyString.

(** ** The command-line runner, lines 579-868

    The second script of the file creates identities in a batch.  Its
    topic selector works on the constant [CHAT_TOPICS] instead of the
    topics of the identity, and its requests may go through a proxy. *)

Module Batch.




Section Selector.
Variable env : Env.
Variable CHAT_TOPICS : list string.

(** [getRandomTopic(wallet)], lines 729-739; the result is [None] when
    the JavaScript function returns [undefined], which [CHAT_TOPICS[0]]
    is for an empty array *)
Definition getRandomTopic : Prog WState (option string) :=
  let* w := gets wallet in
  let availableTopics := filter (fun t => t ∉ usedTopics w) CHAT_TOPICS in
  match availableTopics with
  | [] =>
      on_wallet (set_usedTopics []) >>
      let* k := random_index env (length CHAT_TOPICS) in
      ret (CHAT_TOPICS !! k)
  | _ :: _ =>
      let* randomIndex := random_index env (length availableTopics) in
      let selectedTopic := nth randomIndex availableTopics EmptyString in
      on_wallet (fun w' => set_usedTopics (usedTopics w' ++ [selectedTopic]) w') >>
      ret (Some selectedTopic)
  end.
End Selector.
End Batch.

(** * Properties *)

(** ** The text helpers on examples *)

Example parseInt_5 : parseInt "5" = Some 5. Proof. reflexivity. Qed.
Example parseInt_abc : parseInt "abc" = None. Proof. reflexivity. Qed.
Example parseInt_12px : parseInt " 12px" = Some 12. Proof. reflexivity. Qed.
Example parseInt_hex : parseInt "-0x1f" = Some (-31). Proof. reflexivity. Qed.
Example trim_ex : trim "  ab c  " = "ab c". Proof. reflexivity. Qed.
Example split_ex : split_comma EmptyString "t1, t2,,x" = ["t1"; " t2"; EmptyString; "x"].
Proof. reflexivity. Qed.

(** ** Registration: [registerWallet] *)

Lemma registerWallet_eval env referralCode w t :
  registerWallet env referralCode (mkWState w t)
  = registration_result env referralCode w t.
Proof.
  unfold registration_result, registerWallet, profile_answer, sign_answer,
    connect_answer, bind_answer, requery_answer, token_of, reports_200.
  unfold try_catch, bind, http, signMessage, wtick, lift_outcome, gets,
    on_wallet, modify, ret, throw, bind. simpl.
  destruct (env_http env t _) as [r1|e1]; simpl; try reflexivity.
  destruct (env_sign env _) as [sig|e2]; simpl; try reflexivity.
  destruct (env_http env (S t) _) as [r3|e3]; simpl; try reflexivity.
  destruct (prop_of (data r3) "data") as [d|e4]; simpl; try reflexivity.
  destruct (truthy d) eqn:Hd; simpl; try reflexivity.
  destruct (prop_of d "token") as [tok|e5]; simpl; try reflexivity.
  destruct (truthy tok) eqn:Htok; simpl; try reflexivity.
  destruct (env_http env (S (S t)) _) as [r4|e6]; simpl; try reflexivity.
  destruct (env_http env (S (S (S t))) _) as [r5|e7]; simpl; try reflexivity.
  destruct (prop_of (data r5) "code") as [code|e8]; simpl; try reflexivity.
  destruct (strict_eq_num code 200); reflexivity.
Qed.

Lemma registerWallet_never_throws env referralCode s :
  exists b s', registerWallet env referralCode s = (Ret b, s').
Proof.
  destruct s as [w t]. rewrite registerWallet_eval. unfold registration_result.
  repeat match goal with
         | |- context [match ?x with _ => _ end] => destruct x
         end; eauto.
Qed.

Ltac handshake_cases :=
  unfold registration_result;
  repeat match goal with
         | H : ?x = _ |- context [?x] => rewrite H
         end;
  repeat match goal with
         | |- context [match ?x with _ => _ end] => destruct x eqn:?
         end; simpl in *.

(** C3. Whenever one of the four handshake steps fails (a call is
    rejected at any step, or the authentication response carries no
    token), [registerWallet] returns the boolean [false], it does not
    throw, and the identity's [registered] flag is still [false]. *)
Theorem registerWallet_failure_returns_false env referralCode w t :
  registered w = false ->
  handshake_fails env referralCode w t ->
  exists s',
    registerWallet env referralCode (mkWState w t) = (Ret false, s') /\
    registered (wallet s') = false.
Proof.
  intros Hreg Hfail. rewrite registerWallet_eval.
  destruct Hfail; handshake_cases; eauto; try congruence.
Qed.

Lemma registerWallet_failure_returns_false_witness :
  handshake_fails (sample_env (fun t => (t =? 1)%nat)) "ABCDEF" sample_wallet 0 /\
  exists s',
    registerWallet (sample_env (fun t => (t =? 1)%nat)) "ABCDEF"
      (mkWState sample_wallet 0) = (Ret false, s') /\
    registered (wallet s') = false.
Proof.
  assert (H : handshake_fails (sample_env (fun t => (t =? 1)%nat)) "ABCDEF"
                sample_wallet 0).
  { eapply fails_connect; reflexivity. }
  split; [exact H |].
  apply (registerWallet_failure_returns_false
           (sample_env (fun t => (t =? 1)%nat)) "ABCDEF" sample_wallet 0);
    [reflexivity | exact H].
Defined.

(** C6. [registered] becomes [true] only through a handshake that
    succeeds end to end: on a not yet registered identity the flag is
    [true] after [registerWallet] exactly when the four calls succeeded
    and the final profile re-query reported code 200; in every other
    outcome it stays [false].  The returned boolean is the flag. *)
Theorem registered_iff_handshake_succeeds env referralCode w t :
  registered w = false ->
  let r := registerWallet env referralCode (mkWState w t) in
  (registered (wallet (snd r)) = true <-> handshake_succeeds env referralCode w t) /\
  fst r = Ret (registered (wallet (snd r))).
Proof.
  intros Hreg r. subst r. rewrite registerWallet_eval.
  unfold handshake_succeeds, authenticated. split; [split |].
  - intros H. revert H. handshake_cases; intros H; try congruence.
    eexists _, _, _. split; [eexists _, _, _ |]; eauto.
  - intros (token & r4 & r5 & (r1 & sig & r3 & H1 & H2 & H3 & H4) & H5 & H6 & H7).
    handshake_cases; congruence.
  - handshake_cases; try congruence; rewrite ?Hreg; reflexivity.
Qed.

Lemma registered_iff_handshake_succeeds_witness :
  let r := registerWallet env_code_401 "ABCDEF" (mkWState sample_wallet 0) in
  (registered (wallet (snd r)) = true <->
   handshake_succeeds env_code_401 "ABCDEF" sample_wallet 0) /\
  fst r = Ret (registered (wallet (snd r))).
Proof.
  apply (registered_iff_handshake_succeeds env_code_401 "ABCDEF" sample_wallet 0).
  reflexivity.
Defined.

(** C10. Registration is not atomic on failure: when steps 1 to 3
    succeed with a token and the run fails afterwards (the binding call
    or the re-query is rejected, or the re-query does not report code
    200), [registerWallet] returns [false], [registered] stays [false],
    and [jwt] is left set to the token of step 3, which is not null. *)
Theorem failed_registration_keeps_jwt env referralCode w t token :
  registered w = false ->
  authenticated env w t token ->
  is_throw (bind_answer env referralCode t token) \/
  is_throw (requery_answer env w t token) \/
  (exists r5, requery_answer env w t token = Ret r5 /\
              reports_200 r5 = false) ->
  exists s',
    registerWallet env referralCode (mkWState w t) = (Ret false, s') /\
    registered (wallet s') = false /\
    jwt (wallet s') = token /\ truthy token = true /\ token <> JsNull.
Proof.
  intros Hreg (r1 & sig & r3 & H1 & H2 & H3 & H4) Hlate.
  assert (Htruthy : truthy token = true).
  { revert H4. unfold token_of.
    repeat match goal with
           | |- context [match ?x with _ => _ end] => destruct x eqn:?
           end; congruence. }
  assert (token <> JsNull) by (intros ->; discriminate).
  rewrite registerWallet_eval.
  destruct Hlate as [Hb | [Hq | (r5 & Hq & H5)]];
    handshake_cases; try contradiction; try congruence;
    eexists; repeat split; eauto; congruence.
Qed.

Lemma failed_registration_keeps_jwt_witness :
  exists s',
    registerWallet env_code_401 "ABCDEF" (mkWState sample_wallet 0)
    = (Ret false, s') /\
    registered (wallet s') = false /\
    jwt (wallet s') = JsStr "tok" /\ truthy (JsStr "tok") = true /\
    JsStr "tok" <> JsNull.
Proof.
  apply (failed_registration_keeps_jwt env_code_401 "ABCDEF" sample_wallet 0
           (JsStr "tok")).
  - reflexivity.
  - eexists _, _, _. repeat split; reflexivity.
  - right; right. eexists. split; reflexivity.
Defined.

(** ** The topic selector: [getRandomTopic] *)

Lemma getRandomTopic_eval env w t :
  getRandomTopic env (mkWState w t) =
  match topics w, available w with
  | [], _ => (Ret "Default topic", mkWState w t)
  | _ :: _, [] =>
      (Ret (nth (env_random env t mod length (topics w))%nat (topics w) EmptyString),
       mkWState (set_usedTopics [] w) (S t))
  | _ :: _, _ :: _ =>
      let topic :=
        nth (env_random env t mod length (available w))%nat (available w)
            EmptyString in
      (Ret topic, mkWState (set_usedTopics (usedTopics w ++ [topic]) w) (S t))
  end.
Proof.
  unfold getRandomTopic, available, bind, gets, on_wallet, modify, random_index,
    wtick, ret, bind. simpl.
  destruct (topics w) as [|a l] eqn:Ht; [reflexivity |].
  rewrite <- Ht.
  destruct (filter _ (topics w)) as [|b l']; reflexivity.
Qed.

Lemma all_used_available w : all_used w <-> available w = [].
Proof.
  unfold all_used, available. split.
  - intros H. destruct (filter _ _) as [|x l] eqn:Hf; [reflexivity |].
    assert (Hx : x ∈ filter (fun t => t ∉ usedTopics w) (topics w))
      by (rewrite Hf; left).
    apply list_elem_of_filter in Hx as [Hn Hin]. destruct Hn. auto.
  - intros Hf t Hin. destruct (decide (t ∈ usedTopics w)) as [|Hn]; [assumption |].
    assert (Hx : t ∈ filter (fun t => t ∉ usedTopics w) (topics w))
      by (apply list_elem_of_filter; auto).
    rewrite Hf in Hx. inversion Hx.
Qed.

Global Instance all_used_dec w : Decision (all_used w).
Proof.
  destruct (decide (available w = [])) as [H|H].
  - left. apply all_used_available, H.
  - right. intros Hu. apply H, all_used_available, Hu.
Defined.

Lemma nth_mod_elem (l : list string) (r : nat) :
  l <> [] -> nth (r mod length l)%nat l EmptyString ∈ l.
Proof.
  intros Hl. apply list_elem_of_In, nth_In.
  apply Nat.mod_upper_bound. destruct l; simpl; [congruence | lia].
Qed.

(** a call that finds an unused topic returns one and marks it *)
Lemma getRandomTopic_pick env w t :
  ~ all_used w ->
  exists topic,
    getRandomTopic env (mkWState w t)
    = (Ret topic, mkWState (set_usedTopics (usedTopics w ++ [topic]) w) (S t)) /\
    topic ∈ topics w /\ topic ∉ usedTopics w.
Proof.
  intros Hn. rewrite getRandomTopic_eval.
  assert (Ha : available w <> []) by (intros H; apply Hn, all_used_available, H).
  destruct (topics w) as [|a l] eqn:Ht.
  { exfalso. apply Ha. unfold available. rewrite Ht. reflexivity. }
  destruct (available w) as [|b l'] eqn:Hav; [congruence |].
  eexists. split; [reflexivity |].
  assert (Hin : nth (env_random env t mod length (b :: l'))%nat (b :: l') EmptyString
                ∈ available w).
  { rewrite Hav. apply nth_mod_elem. discriminate. }
  unfold available in Hin. apply list_elem_of_filter in Hin as [H1 H2].
  rewrite Ht in H2. auto.
Qed.

(** a call that finds all topics used empties [usedTopics] and draws from
    the full list, without marking what it returns *)
Lemma getRandomTopic_reset env w t :
  all_used w -> topics w <> [] ->
  getRandomTopic env (mkWState w t)
  = (Ret (nth (env_random env t mod length (topics w))%nat (topics w) EmptyString),
     mkWState (set_usedTopics [] w) (S t)).
Proof.
  intros Hu Ht. rewrite getRandomTopic_eval.
  apply all_used_available in Hu. rewrite Hu.
  destruct (topics w); [congruence | reflexivity].
Qed.

Lemma getRandomTopic_cases env s :
  exists topic s',
    getRandomTopic env s = (Ret topic, s') /\
    (all_used (wallet s) \/
     ((topic ∉ usedTopics (wallet s)) /\
      usedTopics (wallet s') = usedTopics (wallet s) ++ [topic])).
Proof.
  destruct s as [w t]. destruct (decide (all_used w)) as [Hu|Hn].
  - rewrite getRandomTopic_eval.
    destruct (topics w); [| destruct (available w)]; eauto.
  - destruct (getRandomTopic_pick env w t Hn) as (topic & -> & _ & Hnot).
    eexists _, _. split; [reflexivity |]. right. auto.
Qed.

Lemma topic_trace_S env n s :
  exists topic s',
    getRandomTopic env s = (Ret topic, s') /\
    topic_trace env (S n) s = (s, topic) :: topic_trace env n s'.
Proof.
  destruct (getRandomTopic_cases env s) as (topic & s' & H & _).
  exists topic, s'. split; [assumption |]. simpl. rewrite H. reflexivity.
Qed.

Lemma topic_trace_elem env n s m sm tm :
  topic_trace env n s !! m = Some (sm, tm) ->
  exists s', getRandomTopic env sm = (Ret tm, s').
Proof.
  revert s m. induction n as [|n IH]; intros s m; [discriminate |].
  destruct (topic_trace_S env n s) as (topic & s' & Hg & ->).
  destruct m as [|m]; simpl.
  - intros [= <- <-]. eauto.
  - apply IH.
Qed.

(** Until a call finds all topics used, a used topic stays used. *)
Lemma used_until_exhaustion env n s m sm tm x :
  x ∈ usedTopics (wallet s) ->
  topic_trace env n s !! m = Some (sm, tm) ->
  (exists k sk tk,
      (k <= m)%nat /\ topic_trace env n s !! k = Some (sk, tk) /\
      all_used (wallet sk)) \/
  x ∈ usedTopics (wallet sm).
Proof.
  revert s m. induction n as [|n IH]; intros s m Hx; [discriminate |].
  destruct (topic_trace_S env n s) as (topic & s' & Hg & ->).
  destruct m as [|m]; simpl.
  - intros [= <- <-]. right. assumption.
  - intros Hm. destruct (decide (all_used (wallet s))) as [Hu|Hn].
    + left. exists O, s, topic. split; [lia |]. split; [reflexivity | assumption].
    + destruct (getRandomTopic_cases env s) as (topic' & s'' & Hg' & Hc).
      rewrite Hg in Hg'. injection Hg' as <- <-.
      destruct Hc as [Hu | [_ Hused]]; [contradiction |].
      destruct (IH s' m) as [(k & sk & tk & Hk & Hl & Hu) | Hin]; try assumption.
      * rewrite Hused. apply elem_of_app. left. assumption.
      * left. exists (S k), sk, tk. split; [lia |]. split; assumption.
      * right. assumption.
Qed.

Lemma topic_trace_no_repeat env n s :
  no_repeat_without_exhaustion (topic_trace env n s).
Proof.
  revert s. induction n as [|n IH]; intros s i j si sj topic Hij Hi Hj;
    [discriminate |].
  destruct (topic_trace_S env n s) as (t0 & s' & Hg & Heq).
  rewrite Heq in Hi, Hj |- *.
  destruct j as [|j]; [lia |]. simpl in Hj.
  destruct i as [|i]; simpl in Hi.
  - injection Hi as Hs Ht. subst si topic.
    destruct (getRandomTopic_cases env s) as (t' & s'' & Hg' & Hc).
    rewrite Hg in Hg'. injection Hg' as <- <-.
    destruct Hc as [Hu | [Hnot Hused]].
    { exists O, s, t0. split; [lia |]. split; [reflexivity | assumption]. }
    destruct (used_until_exhaustion env n s' j sj t0 t0) as
      [(k & sk & tk & Hk & Hl & Hu) | Hin]; try assumption.
    + rewrite Hused. apply elem_of_app. right. left.
    + exists (S k), sk, tk. split; [lia |]. split; assumption.
    + destruct (topic_trace_elem env n s' j sj t0 Hj) as (s2 & Hg2).
      destruct (getRandomTopic_cases env sj) as (t2 & s3 & Hg3 & Hc).
      rewrite Hg2 in Hg3. injection Hg3 as <- <-.
      destruct Hc as [Hu | [Hnot2 _]]; [| contradiction].
      exists (S j), sj, t0. split; [lia |]. split; assumption.
  - destruct (IH s' i j si sj topic) as (k & sk & tk & Hk & Hl & Hu);
      [lia | assumption | assumption |].
    exists (S k), sk, tk. split; [lia |]. split; assumption.
Qed.

(** C8 (as the code has it). If two calls of the topic selector on an
    identity return the same topic, then all topics were used at the start
    of one of the calls from the first of the two to the second, both
    included: topics drawn with no exhaustion in between are pairwise
    distinct.  A call that finds an unused topic returns one and appends
    it to [usedTopics].  A call that finds all topics used empties
    [usedTopics] and returns the topic of the full list at the index given
    by the random draw, which it does not mark: the next call may return
    it again. *)
Theorem topic_selector_cycle env :
  (forall n s, no_repeat_without_exhaustion (topic_trace env n s)) /\
  (forall w t, ~ all_used w ->
     exists topic,
       getRandomTopic env (mkWState w t)
       = (Ret topic, mkWState (set_usedTopics (usedTopics w ++ [topic]) w) (S t)) /\
       topic ∈ topics w /\ topic ∉ usedTopics w) /\
  (forall w t, all_used w -> topics w <> [] ->
     getRandomTopic env (mkWState w t)
     = (Ret (nth (env_random env t mod length (topics w))%nat (topics w) EmptyString),
        mkWState (set_usedTopics [] w) (S t)) /\
     nth (env_random env t mod length (topics w))%nat (topics w) EmptyString
       ∈ topics w).
Proof.
  split; [| split].
  - apply topic_trace_no_repeat.
  - apply getRandomTopic_pick.
  - intros w t Hu Ht. split.
    + apply getRandomTopic_reset; assumption.
    + apply nth_mod_elem, Ht.
Qed.

(** C8 as stated fails: with the two topics t1 and t2, all draws being 0,
    the third call finds both topics used, empties [usedTopics] and
    returns t1, and the fourth call returns t1 again although t2 has not
    been used since; no call after the third up to the fourth starts with
    all topics used. *)
Lemma topic_repeated_right_after_reset :
  (2 <= length (topics sample_wallet))%nat /\
  ~ no_repeat_before_exhaustion
      (topic_trace env_draw0 4 (mkWState sample_wallet 0)).
Proof.
  split; [simpl; lia |].
  intros H.
  destruct (H 2%nat 3%nat
              (mkWState (set_usedTopics ["t1"; "t2"] sample_wallet) 2)
              (mkWState (set_usedTopics [] sample_wallet) 3) "t1")
    as (k & sk & tk & Hk & Hl & Hu); [lia | reflexivity | reflexivity |].
  assert (k = 3%nat) as -> by lia.
  vm_compute in Hl. injection Hl as <- <-.
  assert (Hin : "t1" ∈ usedTopics (set_usedTopics [] sample_wallet)).
  { apply Hu. left. }
  inversion Hin.
Qed.

(** ** The conversation runner: [performChat], [completeDailyChats] *)

Lemma getRandomTopic_frame env s topic s' :
  getRandomTopic env s = (Ret topic, s') ->
  chats (wallet s') = chats (wallet s) /\ jwt (wallet s') = jwt (wallet s) /\
  address (wallet s') = address (wallet s) /\
  registered (wallet s') = registered (wallet s).
Proof.
  destruct s as [w t]. rewrite getRandomTopic_eval.
  destruct (topics w); [| destruct (available w)];
    intros [= <- <-]; simpl; auto.
Qed.

(** one turn: it never throws, and it adds one to [chats] exactly when it
    reports success, which it does exactly when the response is a 200 *)
Lemma performChat_turn env i s :
  exists b s',
    performChat env i s = (Ret b, s') /\
    chats (wallet s') = (chats (wallet s) + (if b then 1 else 0))%nat /\
    (b = true <-> turn_succeeds env s).
Proof.
  unfold turn_succeeds.
  destruct (getRandomTopic_cases env s) as (topic & s1 & Hg & _).
  destruct (getRandomTopic_frame env s topic s1 Hg) as (Hc & Hj & Ha & _).
  unfold performChat, try_catch, bind, gets, http, wtick, lift_outcome, ret,
    on_wallet, modify, bind. simpl.
  destruct (truthy (jwt (wallet s))) eqn:Hjwt; simpl.
  - rewrite Hg. simpl.
    destruct (env_http env (wclock s1) _) as [r|e] eqn:Hr; simpl.
    + destruct (status r =? 200) eqn:Hs; simpl.
      * eexists _, _. split; [reflexivity |]. simpl. split; [lia |].
        split; [intros _ | reflexivity]. split; [reflexivity |].
        exists topic, s1, r. split; [reflexivity |]. split; [assumption | lia].
      * eexists _, _. split; [reflexivity |]. simpl. split; [lia |].
        split; [discriminate |].
        intros (_ & topic' & s1' & r' & [= <- <-] & Hr' & Hs').
        rewrite Hr in Hr'. injection Hr' as <-. lia.
    + eexists _, _. split; [reflexivity |]. simpl. split; [lia |].
      split; [discriminate |].
      intros (_ & topic' & s1' & r' & [= <- <-] & Hr' & _). congruence.
  - eexists _, _. split; [reflexivity |]. split; [lia |].
    split; [discriminate | intros [H _]; discriminate].
Qed.

Lemma chat_loop_spec env n i s :
  exists results s',
    chat_loop env n i s = (Ret results, s') /\
    (length results <= n)%nat /\
    (forall k, (S k < length results)%nat -> results !! k = Some true) /\
    ((length results < n)%nat -> last results = Some false) /\
    chats (wallet s') = (chats (wallet s) + successes results)%nat.
Proof.
  revert i s. induction n as [|n IH]; intros i s; simpl.
  - exists [], s. unfold ret, successes. simpl.
    repeat split; try lia; intros; lia.
  - destruct (performChat_turn env i s) as (b & s1 & Hp & Hc & _).
    unfold bind at 1. rewrite Hp. destruct b.
    + destruct (IH (S i) s1) as (rest & s2 & Hl & Hlen & Hpre & Hlast & Hch).
      unfold bind. rewrite Hl. unfold ret.
      exists (true :: rest), s2. split; [reflexivity |]. simpl.
      split; [lia |]. split; [| split].
      * intros [|k] Hk; [reflexivity |]. simpl. apply Hpre. lia.
      * intros Hlt. destruct rest as [|b rest].
        { destruct n; [simpl in *; lia |].
          assert (Hf : last (@nil bool) = Some false) by (apply Hlast; simpl; lia).
          discriminate Hf. }
        rewrite last_cons_cons. apply Hlast. simpl in *. lia.
      * unfold successes in *. rewrite filter_cons_True by reflexivity.
        simpl. lia.
    + exists [false], s1. unfold ret. split; [reflexivity |]. simpl.
      split; [lia |]. split; [intros k Hk; lia |].
      split; [reflexivity |]. unfold successes. simpl. lia.
Qed.

Lemma successes_bound results : (successes results <= length results)%nat.
Proof. unfold successes. apply length_filter. Qed.


(** ** The quota gate of [processUserRequest] *)

Lemma quota_rollover_eval env chatId w :
  quota_rollover env chatId w = (Ret tt, after_rollover env chatId w).
Proof.
  unfold quota_rollover, after_rollover, rolled_over, gate_today, today_now,
    bind, tick, gets, ret, modify. simpl.
  destruct w as [b u st ul wm sf ml gc pr ad us dk ob ck].
  unfold upd_usageData, upd_clock. simpl.
  destruct (u !! chatId) as [r|]; simpl; [| reflexivity].
  destruct (String.eqb (date r) (env_today env ck)); reflexivity.
Qed.

Lemma after_rollover_record env chatId w :
  usageData (after_rollover env chatId w) !! chatId
  = Some (mkQuota (gate_today env w) (gate_used env chatId w)).
Proof.
  unfold after_rollover, rolled_over, gate_used, prior_same_day_count.
  destruct w as [b u st ul wm sf ml gc pr ad us dk ob ck]. simpl.
  unfold gate_today. simpl.
  destruct (u !! chatId) as [r|] eqn:Hr; simpl.
  - destruct (String.eqb (date r) (env_today env ck)) eqn:Hd; simpl.
    + apply String.eqb_eq in Hd. rewrite Hr, <- Hd. destruct r; reflexivity.
    + apply lookup_insert_eq.
  - apply lookup_insert_eq.
Qed.

Lemma quota_gate_eval env chatId amount w :
  quota_gate env chatId amount w =
  let used := gate_used env chatId w in
  let w1 := after_rollover env chatId w in
  if maxLimit w <? used + amount
  then
    if env_telegram env (S (clock w))
    then (Ret false,
          upd_outbox (fun l => l ++ [OutMessage chatId (limit_message used (maxLimit w))])
            (upd_clock S w1))
    else (Throw "ETELEGRAM", upd_clock S w1)
  else
    (Ret true,
     upd_disk (upd_file_stats (fun _ =>
                 mkStats (totalUsers (stats w)) (totalWalletRequests (stats w) + amount)))
       (upd_stats (fun s => mkStats (totalUsers s) (totalWalletRequests s + amount)) w1)).
Proof.
  unfold quota_gate. unfold bind at 1. rewrite quota_rollover_eval.
  unfold quota_check. unfold bind at 1. unfold gets at 1.
  rewrite after_rollover_record. simpl.
  unfold bind at 1. unfold gets at 1.
  replace (maxLimit (after_rollover env chatId w)) with (maxLimit w)
    by (destruct w; reflexivity).
  destruct (maxLimit w <? gate_used env chatId w + amount).
  - unfold sendMessage, telegram, bind, tick, modify, throw, ret.
    replace (clock (after_rollover env chatId w)) with (S (clock w))
      by (destruct w; reflexivity).
    destruct (env_telegram env (S (clock w))); reflexivity.
  - unfold bind, modify, gets, save, ret. simpl.
    destruct w; reflexivity.
Qed.


(** the gate lets the request pass exactly when the prior same-day count
    plus the amount is at most the ceiling *)
Lemma quota_gate_decision env chatId amount w :
  fst (quota_gate env chatId amount w) = Ret true <->
  gate_used env chatId w + amount <= maxLimit w.
Proof.
  rewrite quota_gate_eval. cbv zeta.
  destruct (maxLimit w <? gate_used env chatId w + amount) eqn:Hc.
  - apply Z.ltb_lt in Hc.
    destruct (env_telegram env (S (clock w))); simpl;
      (split; [discriminate | lia]).
  - apply Z.ltb_ge in Hc. simpl. split; [lia | reflexivity].
Qed.



(** C2. When the stored record of the actor is dated another day than
    the current one, the quota check first replaces it by a record of
    today with count 0, and the comparison with the ceiling is made on
    that record: the request is granted exactly when the amount alone is
    at most the ceiling, and the record left behind is the reset one. *)
Theorem stale_record_reset_before_comparison env chatId amount w q :
  usageData w !! chatId = Some q ->
  date q <> gate_today env w ->
  let w1 := snd (quota_rollover env chatId w) in
  usageData w1 !! chatId = Some (mkQuota (gate_today env w) 0) /\
  quota_gate env chatId amount w = quota_check env chatId amount w1 /\
  (fst (quota_gate env chatId amount w) = Ret true <-> 0 + amount <= maxLimit w) /\
  usageData (snd (quota_gate env chatId amount w)) !! chatId
  = Some (mkQuota (gate_today env w) 0).
Proof.
  intros Hq Hd w1.
  assert (Hused : gate_used env chatId w = 0).
  { unfold gate_used, prior_same_day_count. rewrite Hq.
    destruct (String.eqb (date q) (gate_today env w)) eqn:He; [| reflexivity].
    apply String.eqb_eq in He. contradiction. }
  assert (Hrec : usageData w1 !! chatId = Some (mkQuota (gate_today env w) 0)).
  { subst w1. rewrite quota_rollover_eval. cbn [snd].
    rewrite after_rollover_record, Hused. reflexivity. }
  split; [exact Hrec |]. split.
  { subst w1. unfold quota_gate, bind.
    destruct (quota_rollover env chatId w) as [[[]|e] w'] eqn:Hr; [reflexivity |].
    rewrite quota_rollover_eval in Hr. discriminate. }
  pose proof (quota_gate_decision env chatId amount w) as Hiff.
  rewrite Hused in Hiff. split; [exact Hiff |].
  rewrite quota_gate_eval. simpl. rewrite Hused.
  subst w1. rewrite quota_rollover_eval in Hrec. cbn [snd] in Hrec.
  destruct (maxLimit w <? 0 + amount);
    [destruct (env_telegram env (S (clock w))) |]; cbn [snd];
    destruct w; exact Hrec.
Qed.

Lemma stale_record_reset_before_comparison_witness :
  usageData (snd (quota_rollover env_up 7 (world_used8 "2024-05-16" 10))) !! 7
  = Some (mkQuota "2024-05-17" 0) /\
  (fst (quota_gate env_up 7 5 (world_used8 "2024-05-16" 10)) = Ret true <->
   0 + 5 <= maxLimit (world_used8 "2024-05-16" 10)).
Proof.
  destruct (stale_record_reset_before_comparison env_up 7 5
              (world_used8 "2024-05-16" 10) (mkQuota "2024-05-16" 8))
    as (H1 & _ & H3 & _).
  - reflexivity.
  - vm_compute. discriminate.
  - split; [exact H1 | exact H3].
Defined.

(** ** Rules for [preserves] and [returns] *)

Lemma preserves_ret {A} P (a : A) : preserves P (ret a).
Proof. intros w H. exact H. Qed.

Lemma preserves_throw {A} P e : preserves P (@throw World A e).
Proof. intros w H. exact H. Qed.

Lemma preserves_gets {A} P (f : World -> A) : preserves P (gets f).
Proof. intros w H. exact H. Qed.

Lemma preserves_modify P f :
  (forall w, P w -> P (f w)) -> preserves P (modify f).
Proof. intros Hf w H. apply Hf, H. Qed.

Lemma preserves_bind {A B} P (m : M A) (k : A -> M B) :
  preserves P m -> (forall a, preserves P (k a)) -> preserves P (bind m k).
Proof.
  intros Hm Hk w H. unfold bind. specialize (Hm w H).
  destruct (m w) as [[a|e] w']; simpl in *; [apply Hk |]; assumption.
Qed.

Lemma preserves_try_catch {A} P (m : M A) h :
  preserves P m -> (forall e, preserves P (h e)) -> preserves P (try_catch m h).
Proof.
  intros Hm Hh w H. unfold try_catch. specialize (Hm w H).
  destruct (m w) as [[a|e] w']; simpl in *; [| apply Hh]; assumption.
Qed.

Lemma returns_ret {A} (R : A -> Prop) a : R a -> returns R (ret a).
Proof. intros H w a' w' [= <- <-]. exact H. Qed.

Lemma returns_throw {A} (R : A -> Prop) e : returns R (@throw World A e).
Proof. intros w a w' [=]. Qed.

Lemma returns_bind {A B} (R1 : A -> Prop) (R : B -> Prop) (m : M A) k :
  returns R1 m -> (forall a, R1 a -> returns R (k a)) -> returns R (bind m k).
Proof.
  intros Hm Hk w b w'. unfold bind.
  destruct (m w) as [[a|e] w1] eqn:Hmw; [| discriminate].
  apply (Hk a (Hm _ _ _ Hmw)).
Qed.

Lemma returns_any {A} (m : M A) : returns (fun _ => True) m.
Proof. intros w a w' _. exact I. Qed.

Lemma returns_try_catch {A} (R : A -> Prop) (m : M A) h :
  returns R m -> (forall e, returns R (h e)) -> returns R (try_catch m h).
Proof.
  intros Hm Hh w a w'. unfold try_catch.
  destruct (m w) as [[a1|e] w1] eqn:Hmw.
  - intros [= <- <-]. apply (Hm _ _ _ Hmw).
  - apply Hh.
Qed.

Section Stable.
Variable env : Env.
Variable P : World -> Prop.
Hypothesis P_stable : io_stable P.

Lemma preserves_tick : preserves P (tick).
Proof. intros w H. apply P_stable, H. Qed.

Lemma preserves_telegram o : preserves P (telegram env o).
Proof.
  intros w H. unfold telegram, bind, tick, modify, throw. simpl.
  destruct (env_telegram env (clock w)); simpl; repeat apply P_stable; exact H.
Qed.

Lemma preserves_sendMessage chatId text : preserves P (sendMessage env chatId text).
Proof. apply preserves_telegram. Qed.

Lemma preserves_sendDocument chatId file caption :
  preserves P (sendDocument env chatId file caption).
Proof.
  unfold sendDocument. apply preserves_bind; [apply preserves_gets |].
  intros t. apply preserves_bind; [apply preserves_telegram |].
  intros _. apply preserves_ret.
Qed.

Lemma preserves_today_now : preserves P (today_now env).
Proof.
  unfold today_now. apply preserves_bind; [apply preserves_tick |].
  intros t. apply preserves_ret.
Qed.

Lemma preserves_createWallet : preserves P (createWallet env).
Proof.
  unfold createWallet. apply preserves_bind; [apply preserves_tick |].
  intros t. destruct (env_keys env t) as [[a k] p]. apply preserves_ret.
Qed.

Lemma preserves_with_wallet {A} w0 (p : Prog WState A) :
  preserves P (with_wallet w0 p).
Proof.
  intros w H. unfold with_wallet.
  destruct (p _) as [[a|e] s]; simpl; apply P_stable, H.
Qed.
End Stable.

(** one step of symbolic execution of a [preserves] or [returns] goal *)
Ltac program_step :=
  lazymatch goal with
  | |- preserves _ (bind _ _) => apply preserves_bind; [| intros ?]
  | |- preserves _ (try_catch _ _) => apply preserves_try_catch; [| intros ?]
  | |- preserves _ (ret _) => apply preserves_ret
  | |- preserves _ (throw _) => apply preserves_throw
  | |- preserves _ (gets _) => apply preserves_gets
  | |- preserves _ (tick) => apply preserves_tick; assumption
  | |- preserves _ (telegram _ _) => apply preserves_telegram; assumption
  | |- preserves _ (sendMessage _ _ _) => apply preserves_sendMessage; assumption
  | |- preserves _ (pinChatMessage _ _ _) => apply preserves_telegram; assumption
  | |- preserves _ (answerCallbackQuery _ _ _) => apply preserves_telegram; assumption
  | |- preserves _ (sendDocument _ _ _ _) => apply preserves_sendDocument; assumption
  | |- preserves _ (today_now _) => apply preserves_today_now; assumption
  | |- preserves _ (createWallet _) => apply preserves_createWallet; assumption
  | |- preserves _ (with_wallet _ _) => apply preserves_with_wallet; assumption
  | |- preserves _ (match ?x with _ => _ end) => destruct x
  | |- preserves _ (let '(_, _) := ?x in _) => destruct x
  end.

Section StableDerived.
Variable env : Env.
Variable P : World -> Prop.
Hypothesis P_stable : io_stable P.

Lemma preserves_sendMessageWithHeader chatId header body :
  preserves P (sendMessageWithHeader env chatId header body).
Proof. unfold sendMessageWithHeader. repeat program_step. Qed.

Lemma preserves_with_captions text : preserves P (with_captions text).
Proof. unfold with_captions. repeat program_step. Qed.

Lemma preserves_finish chatId createdWallets :
  preserves P (finish env chatId createdWallets).
Proof. unfold finish. repeat program_step. Qed.

Lemma preserves_loop_head j : preserves P (loop_head env j).
Proof.
  unfold loop_head. destruct (_ <? _); [apply preserves_ret |].
  apply preserves_finish.
Qed.

Lemma preserves_checkpoint j : preserves P (checkpoint env j).
Proof.
  unfold checkpoint. repeat program_step. apply preserves_finish.
Qed.

Lemma preserves_broadcast_to text users : preserves P (broadcast_to env text users).
Proof.
  induction users as [|u rest IH]; simpl; repeat program_step. exact IH.
Qed.
End StableDerived.

(** ** The cancel flag is never cleared *)

Ltac unfold_upd :=
  unfold upd_blockedUsers, upd_usageData, upd_stats, upd_usersList,
    upd_welcomeMessage, upd_suffix, upd_maxLimit, upd_globalCaption,
    upd_pendingRequests, upd_adminState, upd_userState, upd_disk, upd_outbox,
    upd_clock, upd_file_blocked, upd_file_usage, upd_file_stats,
    upd_file_users, upd_file_welcome, upd_file_suffix, upd_file_maxlimit,
    upd_file_globalcaption, upd_file_wallets in *;
  cbn [blockedUsers usageData stats usersList welcomeMessage suffix maxLimit
       globalCaption pendingRequests adminState userState disk outbox clock
       file_blocked file_usage file_stats file_users file_welcome file_suffix
       file_maxlimit file_globalcaption file_wallets] in *.

Lemma cancelled_with_file_stable a file : io_stable (cancelled_with_file a file).
Proof.
  split; intros w f [H1 H2]; split; unfold cancelled in *; unfold_upd; assumption.
Qed.

Section Flag.
Variable env : Env.
Variables (a : Z) (file : option WalletFile).

Let P := cancelled_with_file a file.
Let P_stable : io_stable P := cancelled_with_file_stable a file.











End Flag.

(** ** What the job steps return *)

Ltac returns_step :=
  lazymatch goal with
  | |- returns _ (bind _ _) =>
      apply (returns_bind (fun _ => True)); [apply returns_any | intros ? _]
  | |- returns _ (ret _) => apply returns_ret
  | |- returns _ (throw _) => apply returns_throw
  | |- returns _ (try_catch _ _) => apply returns_try_catch; [| intros ?]
  | |- returns _ (match ?x with _ => _ end) => destruct x
  end.

Lemma returns_finish env chatId createdWallets :
  returns (fun st => st = Finished createdWallets) (finish env chatId createdWallets).
Proof. unfold finish. repeat returns_step. reflexivity. Qed.

Lemma returns_weaken {A} (R1 R2 : A -> Prop) (m : M A) :
  (forall a, R1 a -> R2 a) -> returns R1 m -> returns R2 m.
Proof. intros Hw Hm w a w' H. apply Hw, (Hm _ _ _ H). Qed.












Example cancelled_actor_gets_nothing :
  let s := run env_up (admin_cancels_7 ++ dialogue 7 "2" ++ [EvResume 0%nat])
               sample_system in
  jobs s = [] /\ file_wallets (disk (world s)) !! 7 = None /\
  drop 10 (outbox (world s))
  = [OutMessage 7 cancelled_message;
     OutMessage 7 "Successfully processed 0 wallet(s).";
     OutDocument 7 "wallet_7.json" "@Zoro_referralbot";
     OutPin 7 13].
Proof. vm_compute. repeat split. Qed.

(** ** Rules for [triple] *)

Lemma triple_ret {A} (P : World -> Prop) (a : A) Q E :
  (forall w, P w -> Q a w) -> triple P (ret a) Q E.
Proof. intros H w Hw. apply H, Hw. Qed.

Lemma triple_gets {A} (P : World -> Prop) (f : World -> A) Q E :
  (forall w, P w -> Q (f w) w) -> triple P (gets f) Q E.
Proof. intros H w Hw. apply H, Hw. Qed.

Lemma triple_modify (P : World -> Prop) f Q E :
  (forall w, P w -> Q tt (f w)) -> triple P (modify f) Q E.
Proof. intros H w Hw. apply H, Hw. Qed.

Lemma triple_bind {A B} (P : World -> Prop) (m : M A) (k : A -> M B) Q1 Q E :
  triple P m Q1 E -> (forall a, triple (Q1 a) (k a) Q E) ->
  triple P (bind m k) Q E.
Proof.
  intros Hm Hk w Hw. unfold bind. specialize (Hm w Hw).
  destruct (m w) as [[a|e] w']; [apply Hk |]; assumption.
Qed.


Lemma triple_weaken {A} (P P' : World -> Prop) (m : M A) (Q Q' : A -> World -> Prop)
    (E E' : World -> Prop) :
  triple P' m Q' E' ->
  (forall w, P w -> P' w) -> (forall a w, Q' a w -> Q a w) ->
  (forall w, E' w -> E w) ->
  triple P m Q E.
Proof.
  intros Hm HP HQ HE w Hw. specialize (Hm w (HP w Hw)).
  destruct (m w) as [[a|e] w']; auto.
Qed.

Lemma triple_preserves {A} (P : World -> Prop) (m : M A) :
  preserves P m -> triple P m (fun _ => P) P.
Proof.
  intros Hm w Hw. specialize (Hm w Hw). destruct (m w) as [[a|e] w']; exact Hm.
Qed.

Section Steady.
Variable env : Env.
Variable P : World -> Prop.
Hypothesis P_stable : io_stable P.



End Steady.

(** ** The steps of a job *)










Lemma begin_granted env chatId amount referralCode topics w :
  gate_used env chatId w + amount <= maxLimit w -> 0 < amount ->
  exists w1,
    processUserRequest_begin env chatId amount referralCode topics w
    = (Ret (Suspended (mkJob chatId amount referralCode topics 0 [] AtDelay)), w1) /\
    pendingRequests w1 = pendingRequests w /\
    usageData w1 !! chatId
    = Some (mkQuota (gate_today env w) (gate_used env chatId w)) /\
    file_wallets (disk w1) = file_wallets (disk w).
Proof.
  intros Hgrant Hpos.
  unfold processUserRequest_begin, try_catch, bind.
  rewrite quota_gate_eval. cbv zeta.
  assert ((maxLimit w <? gate_used env chatId w + amount) = false) as ->
    by (apply Z.ltb_ge; lia).
  cbn beta iota. unfold loop_head. cbn [job_i job_count Z.of_nat].
  assert ((Z.of_nat 0 <? amount) = true) as -> by (apply Z.ltb_lt; lia).
  unfold ret. eexists. split; [reflexivity |].
  pose proof (after_rollover_record env chatId w) as Hrec.
  destruct w. unfold after_rollover in *. unfold_upd. auto.
Qed.



(** ** Sessions and jobs *)

Lemma jobs_of_app a w js1 js2 :
  jobs_of a (mkSystem w (js1 ++ js2))
  = jobs_of a (mkSystem w js1) ++ jobs_of a (mkSystem w js2).
Proof. unfold jobs_of. simpl. apply filter_app. Qed.

(** C5 (as the code has it). The session map holds one record per actor,
    and the handler that completes a session launches the job and deletes
    the record without looking at the jobs that run: for an actor that is
    neither blocked nor the admin, whose session awaits the topics and
    whose request passes the quota gate, a message with at least one topic
    adds a job to those of the actor, however many of its jobs are still
    suspended, and leaves no session record. *)
Theorem session_launches_beside_running_jobs env s a n refCode text :
  a ∉ blockedUsers (world s) ->
  is_admin env a = false ->
  text <> "/start" ->
  userState (world s) !! a = Some (awaiting_topics n refCode) ->
  parse_topics text <> [] ->
  env_telegram env (clock (world s)) = true ->
  gate_used env a (upd_clock S (world s)) + n <= maxLimit (world s) ->
  0 < n ->
  let s' := step env (EvMessage a text) s in
  jobs s' = jobs s ++ [mkJob a n refCode (parse_topics text) 0 [] AtDelay] /\
  userState (world s') !! a = None /\
  length (jobs_of a s') = S (length (jobs_of a s)).
Proof.
  intros Hnb Hnadmin Htext Hstate Htopics Htg Hgrant Hpos s'.
  destruct s as [w js]. simpl in *.
  assert (Hm : exists w',
             on_message env a text w
             = (Ret [mkJob a n refCode (parse_topics text) 0 [] AtDelay], w') /\
             userState w' !! a = None).
  { unfold on_message, bind, gets.
    rewrite bool_decide_eq_false_2 by assumption.
    rewrite Hnadmin. simpl.
    assert (String.eqb text "/start" = false) as -> by (apply String.eqb_neq, Htext).
    rewrite Hstate. unfold session_stage. cbv zeta.
    destruct (parse_topics text) as [|t ts] eqn:Hpt; [congruence |].
    unfold bind, modify, sendMessage, telegram, tick, bind, modify. simpl.
    rewrite Htg.
    match goal with
    | |- context [processUserRequest_begin env a n refCode (t :: ts) ?w2] =>
        destruct (begin_granted env a n refCode (t :: ts) w2)
          as (w3 & Hb & _ & _ & _)
    end.
    { destruct w. unfold gate_used, gate_today in *. unfold_upd. exact Hgrant. }
    { exact Hpos. }
    rewrite Hb. unfold ret. eexists. split; [reflexivity |].
    unfold_upd. apply lookup_delete_eq. }
  destruct Hm as (w' & Hm & Hus). subst s'. simpl. rewrite Hm. simpl.
  split; [reflexivity |]. split; [exact Hus |].
  rewrite jobs_of_app, length_app. unfold jobs_of at 2. simpl.
  rewrite filter_cons_True by reflexivity. simpl.
  unfold jobs_of. simpl. lia.
Qed.

Lemma session_launches_beside_running_jobs_witness :
  let s := run env_up (dialogue 7 "2" ++ firstn 3 (dialogue 7 "3")) sample_system in
  let s' := step env_up (EvMessage 7 "t3") s in
  length (jobs_of 7 s) = 1%nat /\
  length (jobs_of 7 s') = S (length (jobs_of 7 s)) /\
  userState (world s') !! 7 = None.
Proof.
  cbv zeta. split; [vm_compute; reflexivity |].
  destruct (session_launches_beside_running_jobs env_up
              (run env_up (dialogue 7 "2" ++ firstn 3 (dialogue 7 "3")) sample_system)
              7 3 "ABCDEF" "t3") as (_ & H2 & H3).
  - vm_compute. inversion 1.
  - reflexivity.
  - discriminate.
  - vm_compute. reflexivity.
  - vm_compute. discriminate.
  - vm_compute. reflexivity.
  - vm_compute. discriminate.
  - reflexivity.
  - split; [exact H3 | exact H2].
Defined.

(** C5 as stated fails: actor 7 completes two sessions in a row; the
    first job is still suspended at its first [await] when the second one
    is launched, and both are active. *)
Lemma two_jobs_for_one_actor :
  let s := run env_up (dialogue 7 "2" ++ dialogue 7 "3") sample_system in
  length (jobs_of 7 s) = 2%nat /\ ~ one_job_per_actor s.
Proof.
  cbv zeta. split; [vm_compute; reflexivity |].
  intros H. specialize (H 7). vm_compute in H. lia.
Qed.

(** ** [processUserRequest] returns *)





(** ** The model on the scenarios of the specification *)

(** ceiling 10, nothing used today, 3 identities asked with the code
    ABCDEF and the topics t1 and t2: 3 identities are produced, each with
    these topics, and the ledger counts 3 *)
Example scenario_three_identities :
  let w := upd_maxLimit (fun _ => 10) sample_world in
  let r := processUserRequest env_up (fun _ p => p) 7 3 "ABCDEF" ["t1"; "t2"] w in
  (exists created, fst r = Ret (Finished created) /\ length created = 3%nat) /\
  map topics (wallets_on_file 7 (snd r)) = [["t1"; "t2"]; ["t1"; "t2"]; ["t1"; "t2"]] /\
  used_count 7 (snd r) = Some 3.
Proof.
  cbv zeta. split; [eexists; split; vm_compute; reflexivity |].
  split; vm_compute; reflexivity.
Qed.

(** 8 used today, ceiling 10, 5 asked: denied, nothing created, the ledger
    as it was *)
Example scenario_denied :
  let w := world_used8 "2024-05-17" 10 in
  let r := processUserRequest env_up (fun _ p => p) 7 5 "ABCDEF" ["t1"] w in
  fst r = Ret (Finished []) /\
  usageData (snd r) = usageData w /\ disk (snd r) = disk w /\
  outbox (snd r) = [OutMessage 7 (limit_message 8 10)].
Proof.
  cbv zeta. split; [vm_compute; reflexivity |].
  split; [| split; vm_compute; reflexivity].
  apply map_eq. intros i. destruct (decide (i = 7)) as [-> | Hne].
  - vm_compute. reflexivity.
  - unfold processUserRequest, processUserRequest_begin, try_catch, bind.
    rewrite quota_gate_eval. simpl. unfold after_rollover, rolled_over.
    unfold_upd. simpl. reflexivity.
Qed.

(** in stage [awaiting_count] the text abc is refused and the stage
    stays; the text 5 leads to [awaiting_ref] *)
Example scenario_count_input :
  let s := run env_up [EvMessage 7 "/start"; EvMessage 7 "abc"] sample_system in
  userState (world s) !! 7 = Some awaiting_count /\
  last (outbox (world s)) = Some (OutMessage 7 "Please enter a valid number (1-100).") /\
  userState (world (step env_up (EvMessage 7 "5") s)) !! 7 = Some (awaiting_ref 5).
Proof. cbv zeta. repeat split; vm_compute; reflexivity. Qed.

(** * Further properties *)

(** ** More rules for [preserves] *)

(** a value read from a state in [P] *)
Lemma preserves_gets_bind {A B} P (g : World -> A) (k : A -> M B) :
  (forall x, (exists w0, P w0 /\ g w0 = x) -> preserves P (k x)) ->
  preserves P (bind (gets g) k).
Proof.
  intros Hk w Hw. unfold bind, gets. apply (Hk (g w)); eauto.
Qed.

(** a variable is updated and written to its file at once (as in
    [usersList.push(chatId); saveJSON(USERS_FILE, usersList)]) *)
Lemma preserves_modify_gets_save {A B} P f (g : World -> A) h (k : A -> M B) :
  (forall w, P w -> P (upd_disk (h (g (f w))) (f w))) ->
  (forall x, preserves P (k x)) ->
  preserves P (modify f >> (let* x := gets g in save (h x) >> k x)).
Proof.
  intros Hf Hk w Hw. unfold bind at 1 2 3. unfold modify, gets, save. simpl.
  apply Hk, Hf, Hw.
Qed.

Lemma preserves_modify_gets_save_end {A} P f (g : World -> A) h :
  (forall w, P w -> P (upd_disk (h (g (f w))) (f w))) ->
  preserves P (modify f >> (let* x := gets g in save (h x))).
Proof. intros Hf w Hw. apply Hf, Hw. Qed.

Lemma preserves_modify_save {B} P f h (k : M B) :
  (forall w, P w -> P (upd_disk h (f w))) -> preserves P k ->
  preserves P (modify f >> save h >> k).
Proof.
  intros Hf Hk w Hw. unfold bind at 1 2. unfold modify, save. simpl.
  apply Hk, Hf, Hw.
Qed.

(** one step through a handler for an invariant [P]; [side] proves the
    goals about the updates *)
Ltac inv_step side :=
  lazymatch goal with
  | |- preserves ?P (bind (modify ?f) (fun _ => bind (gets ?g)
         (fun x => bind (save (@?h x)) (fun _ => @?k x)))) =>
      apply (preserves_modify_gets_save P f g h k); [side | intros ?]
  | |- preserves ?P (bind (modify ?f) (fun _ => bind (gets ?g)
         (fun x => save (@?h x)))) =>
      apply (preserves_modify_gets_save_end P f g h); side
  | |- preserves ?P (bind (modify ?f) (fun _ => bind (save ?h) (fun _ => ?k))) =>
      apply (preserves_modify_save P f h k); [side |]
  | |- preserves _ (bind _ _) => apply preserves_bind; [| intros ?]
  | |- preserves _ (try_catch _ _) => apply preserves_try_catch; [| intros ?]
  | |- preserves _ (ret _) => apply preserves_ret
  | |- preserves _ (throw _) => apply preserves_throw
  | |- preserves _ (gets _) => apply preserves_gets
  | |- preserves _ (modify _) => apply preserves_modify; side
  | |- preserves _ (save _) => unfold save; apply preserves_modify; side
  | |- preserves _ (tick) => apply preserves_tick; assumption
  | |- preserves _ (telegram _ _) => apply preserves_telegram; assumption
  | |- preserves _ (sendMessage _ _ _) => apply preserves_sendMessage; assumption
  | |- preserves _ (pinChatMessage _ _ _) => apply preserves_telegram; assumption
  | |- preserves _ (answerCallbackQuery _ _ _) => apply preserves_telegram; assumption
  | |- preserves _ (sendDocument _ _ _ _) => apply preserves_sendDocument; assumption
  | |- preserves _ (today_now _) => apply preserves_today_now; assumption
  | |- preserves _ (createWallet _) => apply preserves_createWallet; assumption
  | |- preserves _ (with_wallet _ _) => apply preserves_with_wallet; assumption
  | |- preserves _ (sendMessageWithHeader _ _ _ _) =>
      apply preserves_sendMessageWithHeader; assumption
  | |- preserves _ (with_captions _) => apply preserves_with_captions; assumption
  | |- preserves _ (finish _ _ _) => apply preserves_finish; assumption
  | |- preserves _ (loop_head _ _) => apply preserves_loop_head; assumption
  | |- preserves _ (checkpoint _ _) => apply preserves_checkpoint; assumption
  | |- preserves _ (broadcast_to _ _ _) => apply preserves_broadcast_to; assumption
  | |- preserves _ (match ?x with _ => _ end) => destruct x eqn:?
  | |- preserves _ (let '(_, _) := ?x in _) => destruct x eqn:?
  end.

(** ** The files mirror the variables *)

Lemma mirrored_stable : io_stable mirrored.
Proof. split; intros w f H; unfold mirrored in *; unfold_upd; exact H. Qed.


Section Mirrored.
Variable env : Env.
Let Hst := mirrored_stable.







End Mirrored.

(** an invariant of the handlers and of the job steps is an invariant of
    the process *)
Lemma run_preserves env (P : World -> Prop) :
  (forall chatId text, preserves P (on_message env chatId text)) ->
  (forall id from action, preserves P (on_callback_query env id from action)) ->
  (forall j, preserves P (resume env j)) ->
  io_stable P ->
  forall evs s, P (world s) -> P (world (run env evs s)).
Proof.
  intros Hm Hc Hr Hst evs. induction evs as [|ev evs IH]; intros s Hs; [exact Hs |].
  simpl. apply IH. destruct ev as [chatId text | id from action | id | k]; simpl.
  - specialize (Hm chatId text (world s) Hs).
    destruct (on_message env chatId text (world s)) as [[js|e] w']; exact Hm.
  - apply Hc, Hs.
  - unfold on_inline_query.
    apply (preserves_try_catch P); [apply preserves_telegram, Hst | | exact Hs].
    intros e. apply preserves_ret.
  - destruct (jobs s !! k) as [j|]; [| exact Hs].
    specialize (Hr j (world s) Hs).
    destruct (resume env j (world s)) as [[[j'| |]|e] w']; exact Hr.
Qed.



(** ** The ceiling stays positive *)

Section Ceiling.
Variable env : Env.

Let P := fun w : World => 0 < maxLimit w.

Let P_stable : io_stable P.
Proof. split; intros w f H; unfold P in *; unfold_upd; exact H. Qed.

Ltac ceiling_side :=
  let w := fresh "w" in let H := fresh "H" in
  intros w H; unfold P in *; unfold_upd;
  repeat match goal with
         | H : (_ <=? _) = false |- _ => apply Z.leb_gt in H
         end;
  first [ assumption | lia ].

Lemma ceiling_on_message chatId text : preserves P (on_message env chatId text).
Proof.
  unfold on_message, handleStart, admin_stage, session_stage,
    processUserRequest_begin, quota_gate, quota_rollover, quota_check,
    admin_idle, mark_cancelled.
  repeat inv_step ceiling_side.
Qed.

Lemma ceiling_on_callback_query id from action :
  preserves P (on_callback_query env id from action).
Proof. unfold on_callback_query. repeat inv_step ceiling_side. Qed.

Lemma ceiling_resume j : preserves P (resume env j).
Proof. unfold resume, unit_body, persist_wallet. repeat inv_step ceiling_side. Qed.

Lemma ceiling_run evs s :
  0 < maxLimit (world s) -> 0 < maxLimit (world (run env evs s)).
Proof.
  apply (run_preserves env P).
  - apply ceiling_on_message.
  - apply ceiling_on_callback_query.
  - apply ceiling_resume.
  - apply P_stable.
Qed.
End Ceiling.

(** X2. The ceiling can only be replaced by a positive number: if
    [maxLimit] is positive it stays positive through any sequence of
    events. *)
Theorem ceiling_stays_positive env evs s :
  0 < maxLimit (world s) -> 0 < maxLimit (world (run env evs s)).
Proof. apply ceiling_run. Qed.

Lemma ceiling_stays_positive_witness :
  0 < maxLimit (world sample_system) /\
  0 < maxLimit (world (run env_up
         [EvMessage 1 "/admin"; EvCallbackQuery "cb" 1 "change_max_limit";
          EvMessage 1 "-5"; EvMessage 1 "0"; EvMessage 1 "20"] sample_system)).
Proof.
  assert (H : 0 < maxLimit (world sample_system)) by reflexivity.
  split; [exact H |].
  apply (ceiling_stays_positive env_up _ sample_system H).
Defined.

(** ** The user registry *)

Lemma handleStart_split env chatId :
  handleStart env chatId =
  (let* users := gets usersList in
   (if bool_decide (chatId ∈ users) then ret tt else register_user chatId) >>
   start_session env chatId).
Proof. reflexivity. Qed.

Lemma registry_ok_stable base : io_stable (registry_ok base).
Proof. split; intros w f H; unfold registry_ok in *; unfold_upd; exact H. Qed.

Ltac registry_side :=
  let w := fresh "w" in let H := fresh "H" in
  intros w H; unfold registry_ok in *; unfold_upd; exact H.

Section Registry.
Variable env : Env.
Variable base : Z.
Let Hst := registry_ok_stable base.

Lemma registry_start_session chatId :
  preserves (registry_ok base) (start_session env chatId).
Proof. unfold start_session. repeat inv_step registry_side. Qed.

Lemma registry_handleStart chatId :
  preserves (registry_ok base) (handleStart env chatId).
Proof.
  rewrite handleStart_split. intros w Hw.
  unfold bind at 1. unfold gets at 1. unfold bind at 1.
  destruct (bool_decide (chatId ∈ usersList w)) eqn:Hin.
  - apply registry_start_session, Hw.
  - apply bool_decide_eq_false in Hin.
    apply registry_start_session. destruct Hw as [Hnd Hcount].
    unfold register_user, registry_ok, bind, modify, gets, save. unfold_upd.
    simpl. split.
    + apply NoDup_app. split; [assumption |]. split.
      * intros x Hx Hx'. apply list_elem_of_singleton in Hx'. subst x. contradiction.
      * apply NoDup_singleton.
    + rewrite length_app. simpl. lia.
Qed.

Lemma registry_admin_stage chatId stage text :
  preserves (registry_ok base) (admin_stage env chatId stage text).
Proof.
  unfold admin_stage, admin_idle, mark_cancelled.
  destruct stage; repeat inv_step registry_side.
Qed.

Lemma registry_session_stage chatId state text :
  preserves (registry_ok base) (session_stage env chatId state text).
Proof.
  unfold session_stage, processUserRequest_begin, quota_gate, quota_rollover,
    quota_check.
  destruct state; repeat inv_step registry_side.
Qed.

Lemma registry_on_message chatId text :
  preserves (registry_ok base) (on_message env chatId text).
Proof.
  unfold on_message, admin_idle.
  repeat first [ apply registry_handleStart | apply registry_admin_stage
               | apply registry_session_stage | inv_step registry_side ].
Qed.

Lemma registry_on_callback_query id from action :
  preserves (registry_ok base) (on_callback_query env id from action).
Proof. unfold on_callback_query. repeat inv_step registry_side. Qed.

Lemma registry_resume j : preserves (registry_ok base) (resume env j).
Proof. unfold resume, unit_body, persist_wallet. repeat inv_step registry_side. Qed.
End Registry.

(** X3. The user registry never holds an actor twice, and [totalUsers]
    grows by one exactly when an actor is appended to it: if the registry
    has no duplicate it has none after any sequence of events, and the
    difference between [totalUsers] and the size of the registry stays
    what it was. *)
Theorem registry_counts_each_actor_once env evs s :
  NoDup (usersList (world s)) ->
  let s' := run env evs s in
  NoDup (usersList (world s')) /\
  totalUsers (stats (world s')) - Z.of_nat (length (usersList (world s')))
  = totalUsers (stats (world s)) - Z.of_nat (length (usersList (world s))).
Proof.
  intros Hnd s'.
  set (base := totalUsers (stats (world s)) - Z.of_nat (length (usersList (world s)))).
  assert (H : registry_ok base (world s')).
  { apply (run_preserves env (registry_ok base)).
    - apply registry_on_message.
    - apply registry_on_callback_query.
    - apply registry_resume.
    - apply registry_ok_stable.
    - split; [exact Hnd | subst base; lia]. }
  destruct H as [H1 H2]. split; [exact H1 | lia].
Qed.

Lemma registry_counts_each_actor_once_witness :
  let s' := run env_up [EvMessage 7 "/start"; EvMessage 8 "/start";
                        EvMessage 7 "/start"] sample_system in
  NoDup (usersList (world sample_system)) /\
  NoDup (usersList (world s')) /\
  totalUsers (stats (world s')) - Z.of_nat (length (usersList (world s')))
  = totalUsers (stats (world sample_system))
    - Z.of_nat (length (usersList (world sample_system))).
Proof.
  assert (H : NoDup (usersList (world sample_system))) by apply NoDup_nil_2.
  split; [exact H |].
  apply (registry_counts_each_actor_once env_up _ sample_system H).
Defined.

(** ** Only the admin changes the settings *)

Lemma settings_stable c0 : io_stable (fun w => settings w = c0).
Proof. split; intros w f H; unfold settings in *; unfold_upd; exact H. Qed.

Ltac settings_side :=
  let w := fresh "w" in let H := fresh "H" in
  intros w H; unfold settings in *; unfold_upd; exact H.

Section Settings.
Variable env : Env.
Variable c0 : list Z * Z * string * string * string * gmap Z bool
              * (list Z * Z * string * string * string).
Let P := fun w : World => settings w = c0.
Let Hst : io_stable P := settings_stable c0.

Lemma settings_handleStart chatId : preserves P (handleStart env chatId).
Proof. unfold handleStart. repeat inv_step settings_side. Qed.

Lemma settings_session_stage chatId state text :
  preserves P (session_stage env chatId state text).
Proof.
  unfold session_stage, processUserRequest_begin, quota_gate, quota_rollover,
    quota_check.
  destruct state; repeat inv_step settings_side.
Qed.

(** the part of the message handler that every actor reaches, from line
    486 on *)
Lemma settings_user_part chatId text :
  preserves P
    (if String.eqb text "/start"
     then handleStart env chatId >> ret []
     else
       let* state := gets (fun w => userState w !! chatId) in
       match state with
       | None => ret []
       | Some state => session_stage env chatId state text
       end).
Proof.
  repeat first [ apply settings_handleStart | apply settings_session_stage
               | inv_step settings_side ].
Qed.

Lemma settings_on_message_other chatId text :
  is_admin env chatId = false -> preserves P (on_message env chatId text).
Proof.
  intros Hna. unfold on_message. rewrite Hna. cbn [andb].
  apply preserves_bind; [apply preserves_gets |]. intros blocked.
  destruct (bool_decide (chatId ∈ blocked)); [repeat inv_step settings_side |].
  apply preserves_bind; [apply preserves_gets |]. intros stage.
  apply settings_user_part.
Qed.

Lemma settings_on_message_blocked chatId text w :
  chatId ∈ blockedUsers w -> P w -> P (snd (on_message env chatId text w)).
Proof.
  intros Hb Hw. unfold on_message. unfold bind at 1. unfold gets at 1.
  rewrite bool_decide_eq_true_2 by assumption.
  assert (H : preserves P (sendMessage env chatId blocked_message >> ret (@nil Job)))
    by repeat inv_step settings_side.
  apply H, Hw.
Qed.

Lemma settings_on_callback_query id from action :
  preserves P (on_callback_query env id from action).
Proof. unfold on_callback_query. repeat inv_step settings_side. Qed.

Lemma settings_resume j : preserves P (resume env j).
Proof. unfold resume, unit_body, persist_wallet. repeat inv_step settings_side. Qed.

Lemma settings_step ev s :
  admin_message env ev = false ->
  P (world s) -> P (world (step env ev s)).
Proof.
  intros Hev Hs. destruct ev as [chatId text | id from action | id | k]; simpl in *.
  - pose proof (settings_on_message_other chatId text Hev (world s) Hs) as H.
    destruct (on_message env chatId text (world s)) as [[js|e] w']; exact H.
  - apply settings_on_callback_query, Hs.
  - unfold on_inline_query.
    apply (preserves_try_catch P); [apply preserves_telegram, Hst | | exact Hs].
    intros e. apply preserves_ret.
  - destruct (jobs s !! k) as [j|]; [| exact Hs].
    pose proof (settings_resume j (world s) Hs) as H.
    destruct (resume env j (world s)) as [[[j'| |]|e] w']; exact H.
Qed.
End Settings.



(** X5. An admin whose own id is on the block list is locked out: as the
    block test comes first in the message handler, no sequence of events
    changes the block list or any other setting again, so the id cannot
    be unblocked through the bot. *)
Theorem blocked_admin_is_locked_out env evs s :
  (forall admin, env_ADMIN_ID env = Some admin ->
                 admin ∈ blockedUsers (world s)) ->
  settings (world (run env evs s)) = settings (world s).
Proof.
  intros Hadmin. revert s Hadmin.
  induction evs as [|ev evs IH]; intros s Hadmin; [reflexivity |].
  simpl.
  assert (Hstep : settings (world (step env ev s)) = settings (world s)).
  { destruct (admin_message env ev) eqn:Hev.
    - destruct ev as [chatId text | | |]; try discriminate. simpl in Hev.
      unfold is_admin in Hev. apply bool_decide_eq_true in Hev.
      pose proof (settings_on_message_blocked env _ chatId text (world s)
                    (Hadmin chatId Hev) eq_refl) as H.
      simpl. destruct (on_message env chatId text (world s)) as [[js|e] w'];
        exact H.
    - apply (settings_step env _ ev s Hev). reflexivity. }
  rewrite IH; [exact Hstep |].
  intros admin Ha. specialize (Hadmin admin Ha).
  assert (Hb : blockedUsers (world (step env ev s)) = blockedUsers (world s)).
  { unfold settings in Hstep. congruence. }
  rewrite Hb. exact Hadmin.
Qed.

Lemma blocked_admin_is_locked_out_witness :
  let s := run env_up [EvMessage 1 "/admin"; EvCallbackQuery "cb" 1 "block_user";
                       EvMessage 1 "1"] sample_system in
  blockedUsers (world s) = [1] /\
  settings (world (run env_up
              [EvMessage 1 "/admin"; EvCallbackQuery "cb" 1 "unblock_user";
               EvMessage 1 "1"] s))
  = settings (world s).
Proof.
  cbv zeta. split; [vm_compute; reflexivity |].
  apply (blocked_admin_is_locked_out env_up).
  intros admin [= <-]. vm_compute. left.
Defined.

(** X6. A message of a blocked actor is answered and dropped: the only
    effect is the attempt to deliver the notice; no variable, no file, no
    session and no job changes. *)
Theorem blocked_actor_changes_nothing env chatId text s :
  chatId ∈ blockedUsers (world s) ->
  step env (EvMessage chatId text) s =
  mkSystem
    (upd_outbox
       (fun l => if env_telegram env (clock (world s))
                 then l ++ [OutMessage chatId blocked_message] else l)
       (upd_clock S (world s)))
    (jobs s).
Proof.
  intros Hb. destruct s as [w js]. simpl in *.
  unfold on_message. unfold bind at 1. unfold gets at 1.
  rewrite bool_decide_eq_true_2 by assumption.
  unfold bind, sendMessage, telegram, bind, tick, modify, throw, ret. simpl.
  destruct (env_telegram env (clock w)); simpl.
  - rewrite app_nil_r. destruct w; reflexivity.
  - destruct w; reflexivity.
Qed.

Lemma blocked_actor_changes_nothing_witness :
  let s := run env_up [EvMessage 1 "/admin"; EvCallbackQuery "cb" 1 "block_user";
                       EvMessage 1 "7"] sample_system in
  step env_up (EvMessage 7 "/start") s =
  mkSystem
    (upd_outbox
       (fun l => if env_telegram env_up (clock (world s))
                 then l ++ [OutMessage 7 blocked_message] else l)
       (upd_clock S (world s)))
    (jobs s).
Proof.
  apply (blocked_actor_changes_nothing env_up 7 "/start").
  vm_compute. left.
Defined.

(** ** White space *)

Lemma trim_start_idem l : trim_start (trim_start l) = trim_start l.
Proof.
  induction l as [|c l IH]; [reflexivity |]. simpl.
  destruct (is_space c) eqn:Hc; [exact IH |]. simpl. rewrite Hc. reflexivity.
Qed.

Lemma trim_start_head l :
  trim_start l = [] \/
  exists c rest, trim_start l = c :: rest /\ is_space c = false.
Proof.
  induction l as [|c l IH]; [left; reflexivity |]. simpl.
  destruct (is_space c) eqn:Hc; [exact IH |]. right. eauto.
Qed.

Lemma trim_start_snoc l c :
  is_space c = false -> trim_start (l ++ [c]) = trim_start l ++ [c].
Proof.
  intros Hc. induction l as [|x l IH]; simpl.
  - rewrite Hc. reflexivity.
  - destruct (is_space x); [exact IH | reflexivity].
Qed.

(** the characters of [s.trim()] *)
Lemma trim_chars s :
  String.list_ascii_of_string (trim s)
  = rev (trim_start (rev (trim_start (String.list_ascii_of_string s)))).
Proof. unfold trim. apply String.list_ascii_of_string_of_list_ascii. Qed.

Lemma strip_fixed l :
  let l2 := rev (trim_start (rev (trim_start l))) in
  rev (trim_start (rev (trim_start l2))) = l2.
Proof.
  cbv zeta. destruct (trim_start_head l) as [-> | (c & rest & Hl & Hc)];
    [reflexivity |].
  assert (H2 : rev (trim_start (rev (trim_start l)))
               = c :: rev (trim_start (rev rest))).
  { rewrite Hl. simpl. rewrite trim_start_snoc by exact Hc.
    rewrite rev_app_distr. reflexivity. }
  rewrite H2. simpl. rewrite Hc. simpl.
  rewrite rev_involutive, trim_start_snoc by exact Hc.
  rewrite trim_start_idem, rev_app_distr. reflexivity.
Qed.

Lemma trim_idem s : trim (trim s) = trim s.
Proof.
  unfold trim at 1. rewrite trim_chars.
  rewrite (strip_fixed (String.list_ascii_of_string s)). reflexivity.
Qed.

(** the topics read from a message are not empty and carry no white
    space around them *)
Lemma parse_topics_clean text : Forall clean_topic (parse_topics text).
Proof.
  unfold parse_topics. apply Forall_forall. intros t Ht.
  apply list_elem_of_filter in Ht as [Hlen Hin].
  apply list_elem_of_In, in_map_iff in Hin as (piece & <- & _).
  split.
  - intros He. rewrite He in Hlen. simpl in Hlen. lia.
  - apply trim_idem.
Qed.

(** ** The session stages *)




Lemma send_returns env {A} chatId text (a : A) w js w' :
  (sendMessage env chatId text >> ret a) w = (Ret js, w') -> js = a.
Proof.
  unfold bind, ret. destruct (sendMessage env chatId text w) as [[[]|e] w1];
    congruence.
Qed.

(** a plain message goes to the stage of the sender's session *)
Lemma on_message_plain env chatId text w :
  plain_message env chatId text w ->
  on_message env chatId text w =
  match userState w !! chatId with
  | None => (Ret [], w)
  | Some state => session_stage env chatId state text w
  end.
Proof.
  intros (Hnb & Hna & Htext). unfold on_message.
  unfold bind at 1. unfold gets at 1.
  rewrite bool_decide_eq_false_2 by assumption.
  rewrite Hna. cbn [andb]. unfold bind at 1. unfold gets at 1.
  assert (String.eqb text "/start" = false) as -> by (apply String.eqb_neq, Htext).
  unfold bind at 1. unfold gets at 1.
  destruct (userState w !! chatId); reflexivity.
Qed.








(** X9. The job is launched only after its announcement is delivered: if
    the topics are accepted and the announcement fails, the session has
    already been marked [processing], no job starts, nothing is charged,
    and from then on every plain message of the actor is ignored without
    an answer; only the start command gets the actor out. *)
Theorem failed_announcement_strands_session env chatId text n refCode s :
  plain_message env chatId text (world s) ->
  userState (world s) !! chatId = Some (awaiting_topics n refCode) ->
  parse_topics text <> [] ->
  env_telegram env (clock (world s)) = false ->
  let s' := step env (EvMessage chatId text) s in
  s' = mkSystem
         (upd_clock S
            (upd_userState
               <[chatId := processing n refCode (parse_topics text)]> (world s)))
         (jobs s) /\
  forall text', plain_message env chatId text' (world s') ->
                step env (EvMessage chatId text') s' = s'.
Proof.
  intros Hplain Hstate Htopics Htg s'.
  assert (Hs' : s' = mkSystem
                  (upd_clock S
                     (upd_userState
                        <[chatId := processing n refCode (parse_topics text)]>
                        (world s)))
                  (jobs s)).
  { subst s'. simpl. rewrite (on_message_plain env chatId text (world s) Hplain).
    rewrite Hstate. unfold session_stage. cbv zeta.
    destruct (parse_topics text) as [|t ts] eqn:Hpt; [congruence |].
    unfold bind at 1. unfold modify at 1. unfold bind at 1.
    unfold sendMessage, telegram. unfold bind at 1. unfold tick at 1.
    cbn [clock upd_userState upd_clock]. rewrite Htg.
    unfold throw. destruct s as [w js]. destruct w. reflexivity. }
  split; [exact Hs' |].
  intros text' Hplain'. rewrite Hs' in Hplain' |- *.
  unfold step. cbn [world jobs] in *.
  rewrite (on_message_plain env chatId text' _ Hplain').
  cbn [userState upd_clock upd_userState]. rewrite lookup_insert_eq.
  unfold session_stage, ret. rewrite app_nil_r. reflexivity.
Qed.

Lemma failed_announcement_strands_session_witness :
  let env := sample_env (fun t => (t =? 4)%nat) in
  let s := run env (firstn 3 (dialogue 7 "2")) sample_system in
  let s' := step env (EvMessage 7 "t1, t2") s in
  userState (world s') !! 7 = Some (processing 2 "ABCDEF" ["t1"; "t2"]) /\
  jobs s' = [] /\
  step env (EvMessage 7 "hello") s' = s'.
Proof.
  cbv zeta.
  destruct (failed_announcement_strands_session
              (sample_env (fun t => (t =? 4)%nat)) 7 "t1, t2" 2 "ABCDEF"
              (run (sample_env (fun t => (t =? 4)%nat)) (firstn 3 (dialogue 7 "2"))
                   sample_system)) as [H1 H2].
  - split; [vm_compute; inversion 1 |]. split; [reflexivity | discriminate].
  - vm_compute. reflexivity.
  - vm_compute. discriminate.
  - vm_compute. reflexivity.
  - split; [rewrite H1; vm_compute; reflexivity |].
    split; [rewrite H1; vm_compute; reflexivity |].
    apply H2. rewrite H1.
    split; [vm_compute; inversion 1 |]. split; [reflexivity | discriminate].
Defined.

(** ** Sessions and jobs are well formed *)

Lemma wf_sessions_stable : io_stable wf_sessions.
Proof. split; intros w f H; unfold wf_sessions in *; unfold_upd; exact H. Qed.

(** an update that leaves [userState] alone *)
Ltac sessions_same :=
  let w := fresh "w" in let H := fresh "H" in
  intros w H; unfold wf_sessions in *; unfold_upd; exact H.

(** [userState[chatId] = state] *)
Ltac sessions_insert :=
  let w := fresh "w" in let H := fresh "H" in
  let c := fresh "c" in let st := fresh "st" in
  intros w H c st; unfold_upd; rewrite lookup_insert; case_decide;
  [ intros [= <-] | apply H ].

Section WellFormed.
Variable env : Env.
Let Hst := wf_sessions_stable.

Lemma wf_begin chatId amount referralCode topics :
  preserves wf_sessions
    (processUserRequest_begin env chatId amount referralCode topics).
Proof.
  unfold processUserRequest_begin, quota_gate, quota_rollover, quota_check.
  repeat inv_step sessions_same.
Qed.

Lemma wf_session_stage chatId state text :
  wf_session state -> preserves wf_sessions (session_stage env chatId state text).
Proof.
  intros Hwf. unfold session_stage.
  destruct state as [|n|n refCode|n refCode topics]; simpl in Hwf.
  - apply preserves_bind; [apply preserves_gets |]. intros limit.
    apply preserves_bind; [| intros; apply preserves_ret].
    destruct (parseInt text) as [n|]; [| apply preserves_sendMessage, Hst].
    destruct ((n <=? 0) || (limit <? n)) eqn:Hc;
      [apply preserves_sendMessage, Hst |].
    apply preserves_bind; [| intros; apply preserves_sendMessage, Hst].
    apply preserves_modify. sessions_insert. simpl.
    apply orb_false_iff in Hc as [Hc _]. apply Z.leb_gt in Hc. lia.
  - cbv zeta. apply preserves_bind; [| intros; apply preserves_ret].
    destruct (String.length (trim text) =? 6)%nat eqn:Hlen; cbn [negb];
      [| apply preserves_sendMessage, Hst].
    apply preserves_bind; [| intros; apply preserves_sendMessage, Hst].
    apply preserves_modify. sessions_insert. simpl.
    apply Nat.eqb_eq in Hlen. auto.
  - cbv zeta. destruct (parse_topics text) as [|t ts] eqn:Hpt.
    + repeat inv_step sessions_same.
    + apply preserves_bind.
      { apply preserves_modify. sessions_insert. simpl.
        destruct Hwf as [Hn Href]. repeat split; try assumption; [discriminate |].
        rewrite <- Hpt. apply parse_topics_clean. }
      intros _. apply preserves_bind; [apply preserves_sendMessage, Hst |].
      intros _. apply preserves_bind; [apply wf_begin |].
      intros started. apply preserves_bind; [| intros; apply preserves_ret].
      apply preserves_modify. intros w H c st. unfold_upd.
      rewrite lookup_delete. case_decide; [discriminate | apply H].
  - apply preserves_ret.
Qed.

Lemma wf_handleStart chatId : preserves wf_sessions (handleStart env chatId).
Proof.
  unfold handleStart.
  repeat first
    [ apply preserves_modify; sessions_insert; exact I
    | inv_step sessions_same ].
Qed.

Lemma wf_admin_stage chatId stage text :
  preserves wf_sessions (admin_stage env chatId stage text).
Proof.
  unfold admin_stage, admin_idle, mark_cancelled.
  destruct stage; repeat inv_step sessions_same.
Qed.

Lemma wf_on_message chatId text :
  preserves wf_sessions (on_message env chatId text).
Proof.
  unfold on_message, admin_idle.
  apply preserves_bind; [apply preserves_gets |]. intros blocked.
  destruct (bool_decide (chatId ∈ blocked)); [repeat inv_step sessions_same |].
  destruct (is_admin env chatId && String.eqb text "/admin");
    [repeat inv_step sessions_same |].
  apply preserves_bind; [apply preserves_gets |]. intros stage.
  assert (Huser : preserves wf_sessions
            (if String.eqb text "/start"
             then handleStart env chatId >> ret []
             else
               let* state := gets (fun w => userState w !! chatId) in
               match state with
               | None => ret []
               | Some state => session_stage env chatId state text
               end)).
  { destruct (String.eqb text "/start").
    - apply preserves_bind; [apply wf_handleStart | intros; apply preserves_ret].
    - apply preserves_gets_bind. intros state (w0 & Hw0 & Hstate).
      destruct state as [state|]; [| apply preserves_ret].
      apply wf_session_stage. apply (Hw0 chatId state Hstate). }
  destruct (if is_admin env chatId then stage else None) as [[]|];
    try exact Huser;
    (apply preserves_bind; [apply wf_admin_stage | intros; apply preserves_ret]).
Qed.

Lemma wf_on_callback_query id from action :
  preserves wf_sessions (on_callback_query env id from action).
Proof. unfold on_callback_query. repeat inv_step sessions_same. Qed.

Lemma wf_resume j : preserves wf_sessions (resume env j).
Proof. unfold resume, unit_body, persist_wallet. repeat inv_step sessions_same. Qed.
End WellFormed.

(** a job that [loop_head] suspends passed the loop test *)
Lemma returns_loop_head_test env j :
  returns (fun st => forall j', st = Suspended j' ->
                     j' = j /\ Z.of_nat (job_i j) < job_count j)
          (loop_head env j).
Proof.
  unfold loop_head. destruct (_ <? _) eqn:Hlt.
  - apply returns_ret. intros j' [= <-]. apply Z.ltb_lt in Hlt. auto.
  - eapply returns_weaken; [| apply returns_finish].
    simpl. intros st -> j' [=].
Qed.

Lemma returns_begin_wf env chatId amount referralCode topics :
  String.length referralCode = 6%nat -> topics <> [] ->
  Forall clean_topic topics ->
  returns (fun st => forall j, st = Suspended j -> wf_job j)
          (processUserRequest_begin env chatId amount referralCode topics).
Proof.
  intros Href Hne Hclean.
  unfold processUserRequest_begin. apply returns_try_catch.
  - apply (returns_bind (fun _ => True)); [apply returns_any | intros [|] _].
    + eapply returns_weaken; [| apply returns_loop_head_test].
      simpl. intros st H j Hst. destruct (H j Hst) as [-> Hlt].
      repeat split; assumption.
    + apply returns_ret. discriminate.
  - intros e. apply returns_ret. discriminate.
Qed.

Lemma returns_session_stage_wf env chatId state text :
  wf_session state ->
  returns (Forall wf_job) (session_stage env chatId state text).
Proof.
  intros Hwf. unfold session_stage.
  destruct state as [|n|n refCode|n refCode topics]; simpl in Hwf.
  - repeat returns_step; constructor.
  - repeat returns_step; constructor.
  - cbv zeta. destruct (parse_topics text) as [|t ts] eqn:Hpt.
    + repeat returns_step; constructor.
    + do 2 returns_step.
      apply (returns_bind (fun st => forall j, st = Suspended j -> wf_job j)).
      { destruct Hwf as [_ Href]. apply returns_begin_wf; [assumption | discriminate |].
        rewrite <- Hpt. apply parse_topics_clean. }
      intros st Hst. returns_step. returns_step.
      destruct st as [j| |]; simpl;
        [constructor; [apply Hst; reflexivity | constructor] | constructor ..].
  - repeat returns_step; constructor.
Qed.

Lemma on_message_jobs_wf env chatId text w started w' :
  wf_sessions w ->
  on_message env chatId text w = (Ret started, w') -> Forall wf_job started.
Proof.
  intros Hwf. unfold on_message.
  unfold bind at 1, gets at 1.
  assert (Hnil : forall (m : M unit) w,
            m w = m w -> forall js w', (m >> ret []) w = (Ret js, w') ->
            Forall wf_job js).
  { intros m w0 _ js w0'. unfold bind, ret. destruct (m w0) as [[[]|e] w1]; intros [=].
    subst. constructor. }
  destruct (bool_decide (chatId ∈ blockedUsers w)); [apply Hnil; reflexivity |].
  destruct (is_admin env chatId && String.eqb text "/admin");
    [apply Hnil; reflexivity |].
  unfold bind at 1, gets at 1.
  assert (Huser :
    (if String.eqb text "/start"
     then handleStart env chatId >> ret []
     else
       let* state := gets (fun w => userState w !! chatId) in
       match state with
       | None => ret []
       | Some state => session_stage env chatId state text
       end) w = (Ret started, w') -> Forall wf_job started).
  { destruct (String.eqb text "/start"); [apply Hnil; reflexivity |].
    unfold bind at 1, gets at 1.
    destruct (userState w !! chatId) as [state|] eqn:Hstate.
    - apply (returns_session_stage_wf env chatId state text (Hwf _ _ Hstate)).
    - intros [= <- _]. constructor. }
  destruct (if is_admin env chatId then adminState w !! chatId else None) as [[]|];
    try exact Huser; apply Hnil; reflexivity.
Qed.

Lemma returns_resume_wf env j :
  wf_job j ->
  returns (fun st => forall j', st = Suspended j' -> wf_job j') (resume env j).
Proof.
  intros (Hlt & Href & Hne & Hclean).
  unfold resume. apply returns_try_catch; [| intros e; apply returns_ret; discriminate].
  destruct (job_phase j).
  - unfold checkpoint. repeat returns_step.
    + eapply returns_weaken; [| apply returns_finish]. simpl. intros st -> j' [=].
    + intros j' [= <-]. repeat split; assumption.
  - unfold unit_body. repeat returns_step.
    + eapply returns_weaken; [| apply returns_finish]. simpl. intros st -> j' [=].
    + eapply returns_weaken; [| apply returns_loop_head_test].
      simpl. intros st H j' Hst. destruct (H j' Hst) as [-> Hlt'].
      repeat split; assumption.
Qed.

Lemma wf_step env ev s : wf_system s -> wf_system (step env ev s).
Proof.
  intros [Hw Hj]. destruct ev as [chatId text|id from action|id|k]; simpl.
  - destruct (on_message env chatId text (world s)) as [[started|e] w'] eqn:Hm;
      split; simpl.
    + apply (wf_on_message env chatId text (world s)) in Hw. rewrite Hm in Hw. exact Hw.
    + apply Forall_app. split; [assumption |].
      apply (on_message_jobs_wf _ _ _ _ _ _ Hw Hm).
    + apply (wf_on_message env chatId text (world s)) in Hw. rewrite Hm in Hw. exact Hw.
    + assumption.
  - split; simpl; [| assumption]. apply wf_on_callback_query, Hw.
  - split; simpl; [| assumption].
    unfold on_inline_query. apply preserves_try_catch; [apply preserves_telegram, wf_sessions_stable | intros; apply preserves_ret | exact Hw].
  - destruct (jobs s !! k) as [j|] eqn:Hk; [| split; assumption].
    assert (Hwfj : wf_job j) by (eapply Forall_lookup_1; eassumption).
    pose proof (wf_resume env j (world s) Hw) as Hw'.
    pose proof (returns_resume_wf env j Hwfj (world s)) as Hr.
    destruct (resume env j (world s)) as [[[j'| |]|e] w']; simpl in *;
      split; simpl; try assumption.
    + apply Forall_insert; [assumption |]. apply (Hr _ _ eq_refl). reflexivity.
    + apply Forall_delete; assumption.
    + apply Forall_delete; assumption.
    + apply Forall_delete; assumption.
Qed.

(** X10.  Whatever the events and the answers of the environment, every
    session kept for an actor and every suspended job is well formed: a
    session past the count stage holds a count of at least one, past the
    referral stage a referral code of six characters; a job has units left
    (its index is below its count), a referral code of six characters and
    at least one topic, and no topic is empty or carries white space at
    its ends.  So the referral test of line 285 never fails in a job that
    the message handler started. *)
Theorem sessions_and_jobs_stay_well_formed env evs s :
  wf_system s -> wf_system (run env evs s).
Proof.
  revert s. induction evs as [|ev evs IH]; intros s H; [exact H |].
  apply IH, wf_step, H.
Qed.

Lemma sessions_and_jobs_stay_well_formed_witness :
  wf_system sample_system /\
  wf_system (run env_up (dialogue 7 "2" ++ [EvResume 0; EvResume 0]) sample_system).
Proof.
  assert (H : wf_system sample_system).
  { split; [| constructor]. intros c st. vm_compute. discriminate. }
  split; [exact H |].
  apply (sessions_and_jobs_stay_well_formed env_up _ sample_system H).
Defined.

(** ** The books of a job run alone *)













(** ** The identities on file are sound *)

Lemma getRandomTopic_keeps env s topic s' :
  getRandomTopic env s = (Ret topic, s') ->
  topics_ok (wallet s) ->
  topics_ok (wallet s') /\ topics (wallet s') = topics (wallet s).
Proof.
  destruct s as [w t]. rewrite getRandomTopic_eval. unfold topics_ok.
  cbn [wallet]. intros H [Hsub Hnd].
  destruct (topics w) as [|t0 ts] eqn:Ht.
  - injection H as <- <-. cbn [wallet]. rewrite Ht. auto.
  - destruct (available w) as [|a av] eqn:Hav.
    + injection H as <- <-. cbn [wallet set_usedTopics topics usedTopics].
      repeat split; [intros x Hx; inversion Hx | constructor | auto].
    + cbv zeta in H.
      assert (Hin : nth (env_random env t mod length (a :: av))%nat (a :: av)
                        EmptyString ∈ available w).
      { rewrite Hav. apply nth_mod_elem. discriminate. }
      revert H Hin.
      generalize (nth (env_random env t mod length (a :: av))%nat (a :: av)
                      EmptyString).
      intros x H Hin. injection H as <- <-.
      cbn [wallet set_usedTopics topics usedTopics].
      unfold available in Hin. apply list_elem_of_filter in Hin as [Hnew Hin].
      repeat split; [| | auto].
      * rewrite <- Ht in Hsub. intros y Hy.
        apply elem_of_app in Hy as [Hy | Hy]; [apply (Hsub y Hy) |].
        apply list_elem_of_singleton in Hy. subst y. exact Hin.
      * apply NoDup_app. split; [assumption |]. split; [| apply NoDup_singleton].
        intros y Hy Hy'. apply list_elem_of_singleton in Hy'. subst y. auto.
Qed.

Lemma performChat_keeps env i s b s' :
  performChat env i s = (Ret b, s') ->
  topics_ok (wallet s) ->
  topics_ok (wallet s') /\ topics (wallet s') = topics (wallet s) /\
  registered (wallet s') = registered (wallet s) /\
  jwt (wallet s') = jwt (wallet s).
Proof.
  intros H Hok.
  destruct (getRandomTopic_cases env s) as (topic & s1 & Hg & _).
  destruct (getRandomTopic_frame env s topic s1 Hg) as (_ & Hj & _ & Hr).
  destruct (getRandomTopic_keeps env s topic s1 Hg Hok) as [Hok1 Ht].
  revert H.
  unfold performChat, try_catch, bind, gets, http, wtick, lift_outcome, ret,
    on_wallet, modify, bind. simpl.
  destruct (truthy (jwt (wallet s))); simpl.
  - rewrite Hg. simpl.
    destruct (env_http env (wclock s1) _) as [r|e]; simpl.
    + destruct (status r =? 200); simpl; intros [= <- <-]; simpl; auto.
    + intros [= <- <-]. simpl. auto.
  - intros [= <- <-]. auto.
Qed.

Lemma chat_loop_keeps env n :
  forall i s results s',
    chat_loop env n i s = (Ret results, s') ->
    topics_ok (wallet s) ->
    topics_ok (wallet s') /\ topics (wallet s') = topics (wallet s) /\
    registered (wallet s') = registered (wallet s) /\
    jwt (wallet s') = jwt (wallet s).
Proof.
  induction n as [|n IH]; intros i s results s'; simpl.
  - intros [= <- <-]. auto.
  - intros H Hok. revert H. unfold bind at 1.
    destruct (performChat_turn env i s) as (b & s1 & Hp & _). rewrite Hp.
    destruct (performChat_keeps env i s b s1 Hp Hok) as (Hok1 & Ht & Hr & Hj).
    destruct b.
    + unfold bind.
      destruct (chat_loop env n (S i) s1) as [[rest|e] s2] eqn:Hl;
        [| discriminate].
      intros [= <- <-].
      destruct (IH _ _ _ _ Hl Hok1) as (Hok2 & Ht2 & Hr2 & Hj2).
      repeat split; try apply Hok2; congruence.
    + intros [= <- <-]. auto.
Qed.

Lemma token_of_truthy r token : token_of r = Some token -> truthy token = true.
Proof.
  unfold token_of.
  destruct (prop_of (data r) "data") as [d|]; [| discriminate].
  destruct (truthy d); [| discriminate].
  destruct (prop_of d "token") as [tok|]; [| discriminate].
  destruct (truthy tok) eqn:Htok; [| discriminate].
  intros [= <-]. exact Htok.
Qed.

(** the result of [registerWallet] is the flag [registered], set only
    with a token; the call leaves the conversations and topics alone *)
Lemma registerWallet_keeps env referralCode w t b s' :
  registerWallet env referralCode (mkWState w t) = (Ret b, s') ->
  registered w = false ->
  registered (wallet s') = b /\
  (b = true -> truthy (jwt (wallet s')) = true) /\
  chats (wallet s') = chats w /\ usedTopics (wallet s') = usedTopics w /\
  topics (wallet s') = topics w.
Proof.
  rewrite registerWallet_eval. unfold registration_result. intros H Hreg.
  repeat match type of H with
         | context [match ?x with _ => _ end] => destruct x eqn:?
         end;
    injection H as <- <-; simpl; repeat split; auto; try discriminate;
    intros _; eapply token_of_truthy; eassumption.
Qed.

Lemma files_sound_stable : io_stable files_sound.
Proof. split; intros w f H; unfold files_sound in *; unfold_upd; exact H. Qed.

(** an update that leaves the wallet files alone *)
Ltac files_same :=
  let w := fresh "w" in let H := fresh "H" in
  intros w H; unfold files_sound in *; unfold_upd; exact H.

Lemma triple_pure {A} (P : World -> Prop) (phi : Prop) (m : M A) Q E :
  (phi -> triple P m Q E) -> triple (fun w => P w /\ phi) m Q E.
Proof. intros H w [Hw Hphi]. apply (H Hphi w Hw). Qed.

Lemma preserves_of_triple {A} (P : World -> Prop) (m : M A) :
  triple P m (fun _ => P) P -> preserves P m.
Proof.
  intros H w Hw. specialize (H w Hw). destruct (m w) as [[a|e] w']; exact H.
Qed.

Lemma triple_createWallet env (P : World -> Prop) :
  io_stable P ->
  triple P (createWallet env)
    (fun w0 wd =>
       P wd /\
       (registered w0 = false /\ chats w0 = 0%nat /\ usedTopics w0 = []))
    (fun _ => False).
Proof.
  intros Hst w Hw. unfold createWallet, bind, tick, ret.
  destruct (env_keys env (clock w)) as [[a k] p].
  split; [apply Hst, Hw | auto].
Qed.

Lemma triple_with_wallet {A} (P : World -> Prop) w0 (p : Prog WState A)
    (R : A -> Wallet -> Prop) :
  io_stable P ->
  (forall t, match p (mkWState w0 t) with
             | (Ret a, s') => R a (wallet s')
             | (Throw _, _) => False
             end) ->
  triple P (with_wallet w0 p) (fun r wd => P wd /\ R (fst r) (snd r))
         (fun _ => False).
Proof.
  intros Hst Hp w Hw. unfold with_wallet. specialize (Hp (clock w)).
  destruct (p (mkWState w0 (clock w))) as [[a|e] s']; [| contradiction].
  split; [apply Hst, Hw | exact Hp].
Qed.

(** lines 295-305 append a sound identity to sound files *)
Lemma triple_persist_sound env chatId wl :
  sound_identity wl ->
  triple files_sound (persist_wallet env chatId wl) (fun _ => files_sound)
         files_sound.
Proof.
  intros Hwl w Hw. unfold persist_wallet. unfold bind at 1, gets at 1.
  assert (Hadd : forall existing w1, files_sound w1 ->
            Forall sound_identity existing ->
            files_sound (upd_disk (upd_file_wallets
              <[chatId := FileWallets (existing ++ [wl])]>) w1)).
  { intros existing w1 Hw1 Hex c l. unfold_upd.
    rewrite lookup_insert. case_decide; [| apply Hw1].
    intros [= <-]. apply Forall_app. split; [assumption |].
    constructor; [assumption | constructor]. }
  destruct (file_wallets (disk w) !! chatId) as [[message|l0]|] eqn:Hfile.
  - unfold bind at 1.
    pose proof (preserves_sendMessage env _ files_sound_stable chatId
                  ("Error reading your wallet file: " +:+ message) w Hw) as Hp.
    unfold bind at 1.
    destruct (sendMessage env chatId _ w) as [[[]|e] w1]; simpl in Hp;
      [| exact Hp].
    apply Hadd; [exact Hp | constructor].
  - apply Hadd; [exact Hw | apply (Hw chatId l0 Hfile)].
  - apply Hadd; [exact Hw | constructor].
Qed.

(** the identity that lines 283-293 hand to the file is sound *)
Lemma unit_identity_ready env topics0 referralCode w0 :
  registered w0 = false /\ chats w0 = 0%nat /\ usedTopics w0 = [] ->
  forall t,
    match registerWallet env referralCode (mkWState (set_topics topics0 w0) t) with
    | (Ret b, s1) => unit_ready env b (wallet s1)
    | (Throw _, _) => False
    end.
Proof.
  intros (Hreg & Hch & Hused) t.
  destruct (registerWallet_never_throws env referralCode
              (mkWState (set_topics topics0 w0) t)) as (b & s1 & Hr).
  rewrite Hr.
  destruct (registerWallet_keeps env referralCode _ t b s1 Hr Hreg)
    as (Hb & Htok & Hc1 & Hu1 & Ht1).
  cbn [chats usedTopics topics set_topics] in Hc1, Hu1, Ht1.
  assert (Hok1 : topics_ok (wallet s1)).
  { unfold topics_ok. rewrite Hu1, Hused. split; [| constructor].
    intros x Hx. inversion Hx. }
  unfold unit_ready. destruct b.
  - intros t'. unfold completeDailyChats.
    destruct (chat_loop_spec env 5 0 (mkWState (wallet s1) t'))
      as (results & s2 & Hl & Hlen & _ & _ & Hchats).
    rewrite Hl.
    destruct (chat_loop_keeps env 5 0 _ results s2 Hl Hok1)
      as (Hok2 & _ & Hr2 & Hj2).
    cbn [wallet] in *.
    pose proof (successes_bound results) as Hsucc.
    split; [rewrite Hchats, Hc1, Hch; lia |].
    split; [intros _; rewrite Hj2; auto |].
    split; [| exact Hok2].
    intros Hfalse. rewrite Hr2, Hb in Hfalse. discriminate.
  - split; [rewrite Hc1, Hch; lia |].
    split; [rewrite Hb; discriminate |].
    split; [| exact Hok1].
    intros _. rewrite Hc1, Hu1. auto.
Qed.

Lemma triple_bind_safe {A B} (P : World -> Prop) (m : M A) (k : A -> M B) Q1 Q E :
  triple P m Q1 (fun _ => False) -> (forall a, triple (Q1 a) (k a) Q E) ->
  triple P (bind m k) Q E.
Proof.
  intros Hm Hk. eapply triple_bind; [| exact Hk].
  eapply triple_weaken; [exact Hm | auto | auto | intros w []].
Qed.

Section FilesSound.
Variable env : Env.
Let Hst := files_sound_stable.

Lemma files_unit_body j :
  triple files_sound (unit_body env j) (fun _ => files_sound) files_sound.
Proof.
  unfold unit_body. cbv zeta.
  eapply triple_bind_safe; [apply triple_createWallet, Hst |]. intros w0.
  apply triple_pure. intros Hfresh.
  destruct (negb (String.length (job_referralCode j) =? 6)%nat).
  { apply triple_preserves. repeat inv_step files_same. }
  eapply triple_bind_safe.
  { apply (triple_with_wallet _ _ _ (unit_ready env)); [exact Hst |].
    apply unit_identity_ready, Hfresh. }
  intros [b w1]. apply triple_pure. cbn [fst snd]. intros Hready.
  eapply (triple_bind_safe _ _ _ (fun w2 wd => files_sound wd /\ sound_identity w2)).
  { destruct b.
    - eapply triple_bind_safe.
      + apply (triple_with_wallet _ _ _ (fun _ w2 => sound_identity w2));
          [exact Hst |].
        intros t. specialize (Hready t).
        destruct (completeDailyChats env _) as [[r|e] s2]; exact Hready.
      + intros r. apply triple_ret. intros w Hw. exact Hw.
    - apply triple_ret. intros w Hw. split; [exact Hw | exact Hready]. }
  intros w2. apply triple_pure. intros Hsound.
  eapply triple_bind; [apply triple_persist_sound, Hsound |].
  intros []. apply triple_preserves.
  repeat inv_step files_same.
Qed.

Lemma files_resume j : preserves files_sound (resume env j).
Proof.
  unfold resume. apply preserves_try_catch; [| intros e; apply preserves_ret].
  destruct (job_phase j).
  - apply preserves_checkpoint, Hst.
  - apply preserves_of_triple, files_unit_body.
Qed.

Lemma files_handleStart chatId : preserves files_sound (handleStart env chatId).
Proof. unfold handleStart. repeat inv_step files_same. Qed.

Lemma files_admin_stage chatId stage text :
  preserves files_sound (admin_stage env chatId stage text).
Proof.
  unfold admin_stage, admin_idle, mark_cancelled.
  destruct stage; repeat inv_step files_same.
Qed.

Lemma files_begin chatId amount referralCode topics :
  preserves files_sound
    (processUserRequest_begin env chatId amount referralCode topics).
Proof.
  unfold processUserRequest_begin, quota_gate, quota_rollover, quota_check.
  repeat inv_step files_same.
Qed.

Lemma files_session_stage chatId state text :
  preserves files_sound (session_stage env chatId state text).
Proof.
  unfold session_stage. destruct state;
    repeat first [ apply files_begin | inv_step files_same ].
Qed.

Lemma files_on_message chatId text :
  preserves files_sound (on_message env chatId text).
Proof.
  unfold on_message, admin_idle.
  repeat first [ apply files_handleStart | apply files_admin_stage
               | apply files_session_stage | inv_step files_same ].
Qed.

Lemma files_on_callback_query id from action :
  preserves files_sound (on_callback_query env id from action).
Proof. unfold on_callback_query. repeat inv_step files_same. Qed.
End FilesSound.

(** X12.  Whatever the events and the answers of the environment, the
    wallet files stay sound: an identity written to a file has at most five
    conversations; it is marked registered only if it carries a token; an
    identity that is not registered has no conversation and no used topic;
    and the used topics of an identity are topics of it, each listed
    once. *)
Theorem wallet_files_stay_sound env evs s :
  files_sound (world s) -> files_sound (world (run env evs s)).
Proof.
  apply run_preserves.
  - apply files_on_message.
  - apply files_on_callback_query.
  - apply files_resume.
  - apply files_sound_stable.
Qed.

Lemma wallet_files_stay_sound_witness :
  files_sound (world sample_system) /\
  files_sound
    (world (run env_up (dialogue 7 "2" ++ [EvResume 0; EvResume 0]) sample_system)).
Proof.
  assert (H : files_sound (world sample_system)).
  { intros c l. vm_compute. discriminate. }
  split; [exact H |].
  apply (wallet_files_stay_sound env_up _ sample_system H).
Defined.

(** ** The first cycle of the topic selector *)

Lemma not_all_used_yet w :
  NoDup (topics w) ->
  (length (usedTopics w) < length (topics w))%nat -> ~ all_used w.
Proof.
  intros Hnd Hlt Hall.
  assert (Hsub : topics w ⊆+ usedTopics w) by (apply NoDup_submseteq; assumption).
  apply submseteq_length in Hsub. lia.
Qed.

Lemma picks_distinct env n :
  forall s,
    NoDup (topics (wallet s)) -> topics_ok (wallet s) ->
    (length (usedTopics (wallet s)) + n <= length (topics (wallet s)))%nat ->
    length (topic_trace env n s) = n /\
    NoDup (usedTopics (wallet s) ++ (topic_trace env n s).*2) /\
    Forall (fun t => t ∈ topics (wallet s)) (topic_trace env n s).*2.
Proof.
  induction n as [|n IH]; intros [w t] Hnd [Hsub Hused] Hlen; cbn [wallet] in *.
  - simpl. rewrite app_nil_r. auto.
  - destruct (getRandomTopic_pick env w t) as (topic & Hg & Hin & Hnew).
    { apply not_all_used_yet; [assumption | lia]. }
    cbn [topic_trace]. rewrite Hg.
    destruct (IH (mkWState (set_usedTopics (usedTopics w ++ [topic]) w) (S t)))
      as (Hl & Hd & Hall); cbn [wallet topics usedTopics set_usedTopics].
    + assumption.
    + destruct (getRandomTopic_keeps env _ _ _ Hg) as [Hok _];
        [split; assumption | exact Hok].
    + rewrite length_app. simpl. lia.
    + cbn [wallet topics usedTopics set_usedTopics] in *.
      cbn [length fmap list_fmap snd]. rewrite <- app_assoc in Hd.
      split; [congruence |]. split; [exact Hd |].
      constructor; assumption.
Qed.

(** X13.  The first cycle of the topic selector: for an identity that has
    used no topic yet and whose topics are pairwise distinct, the first
    [n] calls of [getRandomTopic], [n] at most the number of topics, all
    return, and they return [n] pairwise distinct topics of the identity,
    whatever the random draws are. *)
Theorem first_cycle_picks_distinct_topics env n s :
  NoDup (topics (wallet s)) -> usedTopics (wallet s) = [] ->
  (n <= length (topics (wallet s)))%nat ->
  length (topic_trace env n s) = n /\
  NoDup (topic_trace env n s).*2 /\
  Forall (fun t => t ∈ topics (wallet s)) (topic_trace env n s).*2.
Proof.
  intros Hnd Hused Hn.
  destruct (picks_distinct env n s Hnd) as (Hl & Hd & Hall).
  - unfold topics_ok. rewrite Hused. split; [| constructor].
    intros x Hx. inversion Hx.
  - rewrite Hused. simpl. exact Hn.
  - rewrite Hused in Hd. auto.
Qed.

Lemma first_cycle_picks_distinct_topics_witness :
  let s := mkWState sample_wallet 0 in
  length (topic_trace env_up 2 s) = 2%nat /\
  NoDup (topic_trace env_up 2 s).*2 /\
  Forall (fun t => t ∈ topics (wallet s)) (topic_trace env_up 2 s).*2.
Proof.
  apply (first_cycle_picks_distinct_topics env_up 2 (mkWState sample_wallet 0)).
  - simpl. apply NoDup_cons. split; [| apply NoDup_singleton].
    intros H. apply list_elem_of_singleton in H. discriminate.
  - reflexivity.
  - simpl. lia.
Defined.

(** ** The admin panel *)






(** ** The broadcast *)



(** ** The suffix and the global caption *)

Lemma decoration_set_stable d : io_stable (decoration_set d).
Proof.
  split; intros w f H; destruct d; unfold decoration_set, decoration in *;
    unfold_upd; exact H.
Qed.

Section Decorations.
Variables (env : Env) (d : Decoration) (text : string).
Hypothesis text_not_empty : text <> EmptyString.
Let Hst := decoration_set_stable d.








End Decorations.




(** ** The buttons of the admin menu *)



(** ** The command-line runner *)





(** X19.  The two topic selectors: on an identity whose topics are
    [CHAT_TOPICS], the selector of the command-line runner does what the
    selector of the bot does as long as [CHAT_TOPICS] is not empty; with
    an empty [CHAT_TOPICS] (a topics file of blank lines) it returns
    [undefined] after one random draw, where the bot returns its default
    topic and draws nothing. *)
Theorem batch_selector_agrees_with_bot env s :
  (topics (wallet s) <> [] ->
   Batch.getRandomTopic env (topics (wallet s)) s =
   match getRandomTopic env s with
   | (Ret topic, s') => (Ret (Some topic), s')
   | (Throw e, s') => (Throw e, s')
   end) /\
  (topics (wallet s) = [] ->
   Batch.getRandomTopic env (topics (wallet s)) s
   = (Ret None, mkWState (set_usedTopics [] (wallet s)) (S (wclock s))) /\
   getRandomTopic env s = (Ret "Default topic", s)).
Proof.
  destruct s as [w t]. cbn [wallet wclock]. split.
  - intros Hne. rewrite getRandomTopic_eval.
    unfold Batch.getRandomTopic, bind, gets, on_wallet, modify, random_index,
      wtick, ret, bind. cbn [wallet wclock].
    destruct (topics w) as [|t0 ts] eqn:Ht; [contradiction |].
    unfold available. rewrite Ht.
    destruct (filter (fun t1 => t1 ∉ usedTopics w) (t0 :: ts)) as [|a av] eqn:Hav.
    + cbn [wallet wclock].
      assert (Hk : (env_random env t mod length (t0 :: ts) < length (t0 :: ts))%nat)
        by (apply Nat.mod_upper_bound; simpl; lia).
      destruct (lookup_lt_is_Some_2 _ _ Hk) as [x Hx].
      rewrite Hx. rewrite (nth_lookup_Some _ _ EmptyString _ Hx). reflexivity.
    + reflexivity.
  - intros Ht. rewrite getRandomTopic_eval. rewrite Ht. split; [| reflexivity].
    unfold Batch.getRandomTopic, bind, gets, on_wallet, modify, random_index,
      wtick, ret, bind. reflexivity.
Qed.
